(** * create-restful-swr: the resource adapter, the resource cacher and the
      hooks, embedded and verified.

    Embedded from the sources:
    - [adapter.ts]: [ResourceAdapter], [defaultUpsert], [defaultFilter],
      [DefaultRestAdapter];
    - [ResourceCacher]: [listResources], [createResource], [viewResource],
      [updateResource], [partialResource], [removeResource];
    - [createRESTfulSWR]: [assertId], [useSWRCollection], [useSWRResource];
    - from the test suite, the adapters and mocked clients of the "basic
      example" and of the "adapter for custom structure".

    SWR is outside the package; what the package uses of it is modelled:
    the cache as a finite map from keys to cached values, and [mutate] as a
    write into that map which records its arguments.  An [async] function
    is a state-passing function that settles with a value or a reason. *)

From Stdlib Require Import String.
From stdpp Require Import base option list strings countable gmap.

Set Default Proof Using "Type".
Open Scope string_scope.
Open Scope list_scope.

(** ** JavaScript arrays with effectful callbacks

    [defaultUpsert] and [defaultFilter] pass to [Array.prototype.map] and
    [Array.prototype.filter] a callback that assigns a captured [let]
    variable.  The callback is called once per element, in index order; the
    captured variable is threaded through as a state of type [S]. *)

Section JsArray.
Context {S A B : Type}.

Fixpoint Array_map (callback : A -> S -> B * S) (arr : list A) (s : S)
  : list B * S :=
  match arr with
  | [] => ([], s)
  | x :: rest =>
      let '(y, s1) := callback x s in
      let '(ys, s2) := Array_map callback rest s1 in
      (y :: ys, s2)
  end.

Fixpoint Array_filter (callback : A -> S -> bool * S) (arr : list A) (s : S)
  : list A * S :=
  match arr with
  | [] => ([], s)
  | x :: rest =>
      let '(keep, s1) := callback x s in
      let '(xs, s2) := Array_filter callback rest s1 in
      (if keep then x :: xs else xs, s2)
  end.

End JsArray.

(** ** [adapter.ts] *)

(** [interface ResourceAdapter<LP, CT, RT>].  [Key] is the type of SWR keys
    the adapter produces; [resourceKey] takes [RT | string], a sum here;
    an optional parameter [params?: LP] is an [option LP]. *)
Record ResourceAdapter {LP CT RT Key : Type} := {
  id : RT -> string;
  resourceKey : RT + string -> Key;
  collectionKey : option LP -> Key;
  all : CT -> list RT;
  upsert : RT -> CT -> CT;
  remove : string -> CT -> CT;
}.
Arguments ResourceAdapter : clear implicits.

(** The two building blocks return an object literal.  Both objects have a
    field [result]; the two records need two field names. *)
Record upsert_report {RT : Type} := {
  inserted : bool;
  upsert_result : list RT;
}.
Arguments upsert_report : clear implicits.

Record filter_report {RT : Type} := {
  removed : bool;
  filter_result : list RT;
}.
Arguments filter_report : clear implicits.

Section DefaultBlocks.
Context {RT : Type}.

(** [defaultUpsert] and [defaultFilter] use their [adapt] argument only
    through [adapt.id]; they take that method. *)
Variable adapt_id : RT -> string.

(** [function defaultUpsert<RT>(adapt, resource, collection)]: [inserted]
    starts as [true]; the [map] callback returns [resource] for an element
    with its id, and clears [inserted]; the result is the mapped array when
    [inserted] was cleared, and [[...collection, resource]] otherwise. *)
Definition defaultUpsert (resource : RT) (collection : list RT)
  : upsert_report RT :=
  let '(updated, inserted) :=
    Array_map
      (fun r inserted =>
         let isElement := String.eqb (adapt_id r) (adapt_id resource) in
         if isElement then (resource, false) else (r, inserted))
      collection true in
  let result := if negb inserted then updated else collection ++ [resource] in
  {| inserted := inserted; upsert_result := result |}.

(** [function defaultFilter<RT>(adapt, id, collection)]: [removed] starts
    as [false]; the [filter] callback sets it for an element with the id,
    and keeps the other elements. *)
Definition defaultFilter (id : string) (collection : list RT)
  : filter_report RT :=
  let '(result, removed) :=
    Array_filter
      (fun r removed =>
         let isElement := String.eqb (adapt_id r) id in
         (negb isElement, if isElement then true else removed))
      collection false in
  {| removed := removed; filter_result := result |}.

End DefaultBlocks.

(** [class DefaultRestAdapter<LP, RK, CT extends RT[], RT extends
    { [K in RK]: string }>].

    A key built by the default adapter is a two-element array whose second
    element is a string (an id), a parameter object or [undefined]. *)
Inductive key_part {LP : Type} :=
| KString (s : string)
| KParams (params : LP)
| KUndefined.
Arguments key_part : clear implicits.

Section DefaultRestAdapter.
Context {LP RK RT : Type}.

(** [get resource k] is the property read [resource[k]], a string by the
    bound on [RT]. *)
Variable get : RT -> RK -> string.

(** [constructor(private cacheKey: string, private idKey: RK)] *)
Variables (cacheKey : string) (idKey : RK).

Definition DefaultRestAdapter_id (resource : RT) : string :=
  get resource idKey.

Definition DefaultRestAdapter_resourceKey (resource : RT + string)
  : list (key_part LP) :=
  [ KString cacheKey;
    KString match resource with
            | inr s => s
            | inl r => DefaultRestAdapter_id r
            end ].

Definition DefaultRestAdapter_collectionKey (params : option LP)
  : list (key_part LP) :=
  [ KString cacheKey;
    match params with Some p => KParams p | None => KUndefined end ].

Definition DefaultRestAdapter_all (collection : list RT) : list RT :=
  collection.

Definition DefaultRestAdapter_upsert (resource : RT) (collection : list RT)
  : list RT :=
  upsert_result (defaultUpsert DefaultRestAdapter_id resource collection).

Definition DefaultRestAdapter_remove (id : string) (collection : list RT)
  : list RT :=
  filter_result (defaultFilter DefaultRestAdapter_id id collection).

Definition DefaultRestAdapter
  : ResourceAdapter LP (list RT) RT (list (key_part LP)) :=
  {| id := DefaultRestAdapter_id;
     resourceKey := DefaultRestAdapter_resourceKey;
     collectionKey := DefaultRestAdapter_collectionKey;
     all := DefaultRestAdapter_all;
     upsert := DefaultRestAdapter_upsert;
     remove := DefaultRestAdapter_remove |}.

End DefaultRestAdapter.

(** SWR serialises a key before it looks it up; two keys address the same
    entry when their parts are equal.  [key_part] is countable, so that keys
    of the default adapter can index a finite map. *)
Global Instance key_part_eq_dec {LP} `{EqDecision LP} : EqDecision (key_part LP).
Proof. solve_decision. Defined.

Definition key_part_to_sum {LP} (k : key_part LP) : string + (LP + unit) :=
  match k with
  | KString s => inl s
  | KParams p => inr (inl p)
  | KUndefined => inr (inr tt)
  end.

Definition key_part_of_sum {LP} (x : string + (LP + unit)) : key_part LP :=
  match x with
  | inl s => KString s
  | inr (inl p) => KParams p
  | inr (inr _) => KUndefined
  end.

Global Instance key_part_countable {LP} `{Countable LP} : Countable (key_part LP).
Proof.
  apply (inj_countable' key_part_to_sum key_part_of_sum).
  intros []; reflexivity.
Defined.

(** ** Promises and [async] functions

    A settled promise either resolved with a value or rejected with a
    reason.  A reason is a JavaScript [Error] thrown by this package or
    whatever the remote client rejected with. *)
Inductive thrown {E : Type} :=
| Error (message : string)
| Rejection (e : E).
Arguments thrown : clear implicits.

Inductive outcome {E A : Type} :=
| Resolved (value : A)
| Rejected (reason : thrown E).
Arguments outcome : clear implicits.

Section Async.
Context {E W : Type}.

(** An [async] function: run from a state, it settles and leaves a state.
    An operation is run on its own, from its call to its settling; what
    other operations do between two of its [await]s is not modelled. *)
Definition async (A : Type) : Type := W -> outcome E A * W.

Definition resolve {A} (a : A) : async A := fun w => (Resolved a, w).

(** [await p] followed by [k]: a rejection of [p] is rethrown and the rest
    [k] of the function body does not run. *)
Definition then_ {A B} (p : async A) (k : A -> async B) : async B :=
  fun w =>
    match p w with
    | (Resolved a, w1) => k a w1
    | (Rejected reason, w1) => (Rejected reason, w1)
    end.

(** A synchronous computation that may throw, run inside an [async]
    function. *)
Definition settle {A} (o : outcome E A) : async A := fun w => (o, w).

End Async.
Arguments async : clear implicits.

Declare Scope async_scope.
Delimit Scope async_scope with async.
Notation "x <- 'await' p ;; k" := (then_ p (fun x => k))
  (at level 100, p at next level, right associativity) : async_scope.
Notation "'await' p ;; k" := (then_ p (fun _ => k))
  (at level 100, p at next level, right associativity) : async_scope.
Open Scope async_scope.

(** [for (const x of items) { await body(x) }] *)
Fixpoint for_of {E W A} (items : list A) (body : A -> async E W unit)
  : async E W unit :=
  match items with
  | [] => resolve tt
  | x :: rest => await body x ;; for_of rest body
  end.

(** ** The SWR cache, [mutate] and the remote client *)

Section Cache.
Context {RT CT LP CP UP PUP VT E Key : Type} `{Countable Key}.

(** What the cache holds under a key: [cache.get(key)] is [undefined] (no
    entry, [None] in the map), [null], or an object, which is a collection
    or a resource.  Objects are truthy; [undefined] and [null] are falsy. *)
Inductive cached :=
| Coll (collection : CT)
| Res (resource : RT)
| Null.

Definition truthy (v : option cached) : bool :=
  match v with
  | None | Some Null => false
  | Some (Coll _) | Some (Res _) => true
  end.

(** The second argument of [mutate]: the new data, or a function of the
    current data ([MutatorCallback]). *)
Inductive MutatorData :=
| Data (data : cached)
| MutatorCallback (callback : option cached -> option cached).

Record mutation := {
  mutation_key : Key;
  mutation_data : MutatorData;
  revalidate : bool;
}.

(** [interface RestClient<RT, CT, LP, CP, UP>].  A method returns a promise;
    the record gives, for each call, how that promise settles.  [PUP] is
    [Partial<UP>], [VT] the value [remove] resolves with (declared [void]).
    The fields carry the prefix [client_]: [list] and [remove] are taken. *)
Record RestClient := {
  client_list : option LP -> outcome E CT;
  client_create : CP -> outcome E RT;
  client_view : string -> outcome E RT;
  client_update : string -> UP -> outcome E RT;
  client_partial : string -> PUP -> outcome E RT;
  client_remove : string -> outcome E VT;
}.

(** A call made on the remote client. *)
Inductive request :=
| ListReq (params : option LP)
| CreateReq (params : CP)
| ViewReq (id : string)
| UpdateReq (id : string) (params : UP)
| PartialReq (id : string) (params : PUP)
| RemoveReq (id : string).

(** The state an operation runs in: the cache, and the histories of the
    [mutate] calls, of the calls on the remote client and of the keys SWR
    was asked to revalidate (refetch). *)
Record world := {
  cache : gmap Key cached;
  mutations : list mutation;
  requests : list request;
  revalidations : list Key;
}.

(** The cache after one write: the entry under [key] becomes [data], or
    [data(cache.get(key))] when [data] is a function (an [undefined] result
    leaves [cache.get(key)] [undefined]). *)
Definition commit (key : Key) (data : MutatorData) (c : gmap Key cached)
  : gmap Key cached :=
  match data with
  | Data v => <[key := v]> c
  | MutatorCallback f => partial_alter f key c
  end.

(** [mutate(key, data, { revalidate })] of SWR: the write is committed, and
    SWR then revalidates the key unless [revalidate] is [false].  The keys
    an adapter builds are taken to be keys SWR accepts (SWR ignores a write
    under an empty key). *)
Definition mutate (key : Key) (data : MutatorData) (revalidate : bool)
  : async E world unit :=
  fun w =>
    (Resolved tt,
     {| cache := commit key data (cache w);
        mutations := mutations w ++
          [ {| mutation_key := key; mutation_data := data;
               revalidate := revalidate |} ];
        requests := requests w;
        revalidations := if revalidate then revalidations w ++ [key]
                         else revalidations w |}).

(** A call [this.client.m(...)]: the call is recorded and its promise is
    awaited. *)
Definition call {A} (req : request) (response : outcome E A)
  : async E world A :=
  fun w =>
    (response,
     {| cache := cache w; mutations := mutations w;
        requests := requests w ++ [req];
        revalidations := revalidations w |}).

(** [collection && f(collection)], the body of the updater functions: a
    falsy [collection] ([undefined], [null]) is the result; otherwise the
    result is [f(collection)].  The parameter is annotated
    [CT | undefined]: an entry that is a resource is outside the typing of
    the source, and is kept as it is. *)
Definition and_then (collection : option cached) (f : CT -> CT)
  : option cached :=
  if truthy collection then
    match collection with
    | Some (Coll c) => Some (Coll (f c))
    | other => other
    end
  else collection.

(** An operation that, run from [w], made the remote call [req], was
    rejected with [reason] and wrote nothing. *)
Definition rejected_without_write {A} (p : async E world A) (req : request)
  (reason : thrown E) (w : world) : Prop :=
  fst (p w) = Rejected reason /\
  cache (snd (p w)) = cache w /\
  mutations (snd (p w)) = mutations w /\
  revalidations (snd (p w)) = revalidations w /\
  requests (snd (p w)) = requests w ++ [req].

(** ** [class ResourceCacher<RT, CT, LP, CP, UP>]

    The constructor's [client] and [adapter] are the section's variables;
    its [mutate] is SWR's, above. *)
Variable client : RestClient.
Variable adapter : ResourceAdapter LP CT RT Key.

Definition listResources (params : option LP) : async E world CT :=
  collection <- await call (ListReq params) (client_list client params) ;;
  await mutate (collectionKey adapter params) (Data (Coll collection)) false ;;
  await for_of (all adapter collection) (fun resource =>
    let resourceKey := resourceKey adapter (inl resource) in
    mutate resourceKey (Data (Res resource)) false) ;;
  resolve collection.

Definition createResource (params : CP) : async E world RT :=
  resource <- await call (CreateReq params) (client_create client params) ;;
  let resourceKey := resourceKey adapter (inl resource) in
  await mutate (collectionKey adapter None)
    (MutatorCallback (fun collection =>
       and_then collection (upsert adapter resource)))
    false ;;
  await mutate resourceKey (Data (Res resource)) false ;;
  resolve resource.

Definition viewResource (id : string) : async E world RT :=
  resource <- await call (ViewReq id) (client_view client id) ;;
  await mutate (collectionKey adapter None)
    (MutatorCallback (fun collection =>
       and_then collection (upsert adapter resource)))
    false ;;
  await mutate (resourceKey adapter (inl resource)) (Data (Res resource))
    false ;;
  resolve resource.

Definition updateResource (id : string) (params : UP) : async E world RT :=
  resource <- await call (UpdateReq id params)
                         (client_update client id params) ;;
  await mutate (collectionKey adapter None)
    (MutatorCallback (fun collection =>
       and_then collection (upsert adapter resource)))
    false ;;
  await mutate (resourceKey adapter (inl resource)) (Data (Res resource))
    false ;;
  resolve resource.

Definition partialResource (id : string) (params : PUP)
  : async E world RT :=
  resource <- await call (PartialReq id params)
                         (client_partial client id params) ;;
  await mutate (collectionKey adapter None)
    (MutatorCallback (fun collection =>
       and_then collection (upsert adapter resource)))
    false ;;
  await mutate (resourceKey adapter (inl resource)) (Data (Res resource))
    false ;;
  resolve resource.

Definition removeResource (id : string) : async E world VT :=
  response <- await call (RemoveReq id) (client_remove client id) ;;
  let resourceKey := resourceKey adapter (inr id) in
  await mutate (collectionKey adapter None)
    (MutatorCallback (fun collection =>
       and_then collection (remove adapter id)))
    false ;;
  await mutate resourceKey (Data Null) false ;;
  resolve response.

(** ** [createRESTfulSWR] *)

(** [!id] for [id : string | undefined]: [undefined] and the empty string
    are falsy. *)
Definition not_id (id : option string) : bool :=
  match id with
  | None => true
  | Some s => String.eqb s ""
  end.

(** [const assertId = id => { if (!id) throw new Error(`id is undefined`) }].
    It asserts [id is string]: on return the id is a string. *)
Definition assertId (id : option string) : outcome E string :=
  if not_id id then Rejected (Error "id is undefined")
  else match id with
       | Some s => Resolved s
       | None => Rejected (Error "id is undefined")
       end.

(** How an operation settles when [assertId] throws: it rejects with that
    error, in the state [w] it was started from. *)
Definition identifier_missing {A} (w : world) : outcome E A * world :=
  (Rejected (Error "id is undefined"), w).

(** The [api] objects of the two hooks; every member is an [async] arrow
    function.  The member names carry the name of their hook. *)
Record collection_api := {
  collection_list : async E world CT;
  collection_create : CP -> async E world RT;
  collection_view : string -> async E world RT;
  collection_update : string -> UP -> async E world RT;
  collection_partial : string -> PUP -> async E world RT;
  collection_remove : string -> async E world VT;
}.

Record resource_api := {
  resource_create : CP -> async E world RT;
  resource_view : async E world RT;
  resource_update : UP -> async E world RT;
  resource_partial : PUP -> async E world RT;
  resource_remove : async E world VT;
}.

(** A hook returns [{ response, api }]; of [response] the model keeps the
    key [useSWR] subscribes to ([None] for the key [null], under which SWR
    fetches nothing). *)
Record RESTfulSWRCollection := {
  collection_response : option Key;
  collection_api_of : collection_api;
}.

Record RESTfulSWRResource := {
  resource_response : option Key;
  resource_api_of : resource_api;
}.

Definition useSWRCollection (params : option LP) : RESTfulSWRCollection :=
  {| collection_response := Some (collectionKey adapter params);
     collection_api_of :=
       {| collection_list := listResources params;
          collection_create := fun params => createResource params;
          collection_view := fun id => viewResource id;
          collection_update := fun id params => updateResource id params;
          collection_partial := fun id params => partialResource id params;
          collection_remove := fun id => removeResource id |} |}.

Definition useSWRResource (id : option string) : RESTfulSWRResource :=
  {| resource_response :=
       if not_id id then None
       else match id with
            | Some s => Some (resourceKey adapter (inr s))
            | None => None
            end;
     resource_api_of :=
       {| resource_create := fun params => createResource params;
          resource_view :=
            id <- await settle (assertId id) ;;
            viewResource id;
          resource_update := fun params =>
            id <- await settle (assertId id) ;;
            updateResource id params;
          resource_partial := fun params =>
            id <- await settle (assertId id) ;;
            partialResource id params;
          resource_remove :=
            id <- await settle (assertId id) ;;
            removeResource id |} |}.

End Cache.

(** ** The wording of the specification, for comparison

    "replace first id-match": only the first element whose id is the id of
    [resource] is replaced. *)
Fixpoint replace_first_match {RT} (adapt_id : RT -> string) (resource : RT)
  (collection : list RT) : list RT :=
  match collection with
  | [] => []
  | r :: rest =>
      if String.eqb (adapt_id r) (adapt_id resource) then resource :: rest
      else r :: replace_first_match adapt_id resource rest
  end.

(** Every element whose id is the id of [resource] is replaced. *)
Definition replace_every_match {RT} (adapt_id : RT -> string) (resource : RT)
  (collection : list RT) : list RT :=
  (fun r => if String.eqb (adapt_id r) (adapt_id resource) then resource
            else r) <$> collection.

(** Some element of the collection has the id [i]. *)
Definition id_present {RT} (adapt_id : RT -> string) (i : string)
  (collection : list RT) : Prop :=
  exists r, r ∈ collection /\ adapt_id r = i.

(** The same as a test. *)
Definition has_id {RT} (adapt_id : RT -> string) (i : string)
  (collection : list RT) : bool :=
  existsb (fun r => String.eqb (adapt_id r) i) collection.

(** The state of a cache nothing was fetched into. *)
Definition empty_world {RT CT LP CP UP PUP Key} `{Countable Key}
  : @world RT CT LP CP UP PUP Key _ _ :=
  {| cache := ∅; mutations := []; requests := []; revalidations := [] |}.

(** ** The "basic example" of the test suite

    [new DefaultRestAdapter('/collection', 'id')] over resources
    [{ id, mock }], list parameters [{ page }], and a mocked client whose
    methods settle the way the test sets them up. *)
Module Basic.

Record item := { item_id : string; mock : bool }.

Inductive item_key := ID.

Definition item_get (r : item) (k : item_key) : string :=
  match k with ID => item_id r end.

Definition adapter : ResourceAdapter nat (list item) item (list (key_part nat)) :=
  DefaultRestAdapter item_get "/collection" ID.

Definition restClient (listResponse : outcome string (list item))
  (resourceResponse : outcome string item)
  (removeResponse : outcome string unit)
  : @RestClient item (list item) nat bool bool (option bool) unit string :=
  {| client_list := fun _ => listResponse;
     client_create := fun _ => resourceResponse;
     client_view := fun _ => resourceResponse;
     client_update := fun _ _ => resourceResponse;
     client_partial := fun _ _ => resourceResponse;
     client_remove := fun _ => removeResponse |}.

Definition item1 : item := {| item_id := "1"; mock := true |}.
Definition item1' : item := {| item_id := "1"; mock := false |}.
Definition item2 : item := {| item_id := "2"; mock := true |}.

Definition world0
  : @world item (list item) nat bool bool (option bool) (list (key_part nat)) _ _ :=
  empty_world.

(** The cache after the collection [[item1]] was listed without
    parameters, with empty histories. *)
Definition world1
  : @world item (list item) nat bool bool (option bool) (list (key_part nat)) _ _ :=
  {| cache := <[collectionKey adapter None := Coll [item1]]> ∅;
     mutations := []; requests := []; revalidations := [] |}.

(** Two mocked clients: every call resolves; every call rejects. *)
Definition resolving : RestClient :=
  restClient (Resolved [item1; item2]) (Resolved item1') (Resolved tt).

Definition clientError : thrown string := Error "Error from client".

Definition rejecting : RestClient :=
  restClient (Rejected clientError) (Rejected clientError)
             (Rejected clientError).

End Basic.

(** ** The "adapter for custom structure" of the test suite

    A collection is [{ items, page, count }]; the adapter's [upsert] and
    [remove] run the default building blocks on [items] and adjust [count]
    by [Number(inserted)] and [Number(removed)]. *)
Module Paged.

Record collection := { items : list Basic.item; page : nat; count : Z }.

Definition Number (b : bool) : Z := if b then 1%Z else 0%Z.

Definition adapter_id (resource : Basic.item) : string :=
  Basic.item_id resource.

Definition adapter
  : ResourceAdapter nat collection Basic.item (list (key_part nat)) :=
  {| id := adapter_id;
     resourceKey := fun resource =>
       [ KString "/collection";
         KString match resource with
                 | inr s => s
                 | inl r => adapter_id r
                 end ];
     collectionKey := fun params =>
       [ KString "/collection";
         match params with Some p => KParams p | None => KUndefined end ];
     all := fun collection => items collection;
     upsert := fun resource collection =>
       let report := defaultUpsert adapter_id resource (items collection) in
       {| items := upsert_result report;
          page := page collection;
          count := count collection + Number (inserted report) |};
     remove := fun id collection =>
       let report := defaultFilter adapter_id id (items collection) in
       {| items := filter_result report;
          page := page collection;
          count := count collection - Number (removed report) |} |}.

End Paged.

(** ** [client.ts]: [DefaultRestClient]

    The client runs over the platform's [fetch].  The platform functions it
    calls are parameters: how a [fetch] settles, the string of
    [new URLSearchParams(params)], and [JSON.stringify].  A parsed body has
    the type [any]; the client returns it under the asserted types [CT] and
    [RT], the coercions [asCT] and [asRT]. *)

(** [JSON.stringify] at the type of a request body. *)
Class Stringify (A : Type) := JSON_stringify : A -> string.

(** The second argument of [fetch]; absent members are [[]] and [None]. *)
Record RequestInit := {
  method : string;
  headers : list (string * string);
  body : option string;
}.

(** What the client reads of a [Response]: [status], and how the promise
    of [json()] settles. *)
Record Response {E J : Type} := {
  status : nat;
  json : outcome E J;
}.
Arguments Response : clear implicits.

(** The calls made on [fetch], in order. *)
Definition network : Type := list (string * option RequestInit).

Section DefaultRestClient.
Context {RT CT LP CP UP PUP E J : Type}.
Context `{Stringify CP} `{Stringify UP} `{Stringify PUP}.

Variable fetch : string -> option RequestInit -> outcome E (Response E J).
Variable URLSearchParams_toString : LP -> string.
Variable asCT : J -> CT.
Variable asRT : J -> RT.

(** [constructor(private collectionUrl: string)] *)
Variable collectionUrl : string.

(** [await fetch(input, init)]: the call is recorded. *)
Definition fetch_call (input : string) (init : option RequestInit)
  : async E network (Response E J) :=
  fun log => (fetch input init, log ++ [(input, init)]).

(** [throw new Error()]: the message of the error is empty. *)
Definition throw_Error {A} : async E network A :=
  settle (Rejected (Error "")).

Definition json_headers : list (string * string) :=
  [("Content-Type", "application/json")].

(** [list(params?: LP)]: [params] is an object when it is given, and an
    object is truthy. *)
Definition DefaultRestClient_list (params : option LP)
  : async E network CT :=
  let path := collectionUrl in
  let path := match params with
              | Some p => (path ++ "?" ++ URLSearchParams_toString p)%string
              | None => path
              end in
  response <- await fetch_call path None ;;
  if negb (Nat.eqb (status response) 200) then throw_Error
  else
    body <- await settle (json response) ;;
    resolve (asCT body).

Definition DefaultRestClient_create (params : CP) : async E network RT :=
  response <- await fetch_call collectionUrl
                (Some {| method := "POST"; headers := json_headers;
                         body := Some (JSON_stringify params) |}) ;;
  if negb (Nat.eqb (status response) 201) then throw_Error
  else
    body <- await settle (json response) ;;
    resolve (asRT body).

Definition DefaultRestClient_view (id : string) : async E network RT :=
  response <- await fetch_call (collectionUrl ++ "/" ++ id)%string None ;;
  if negb (Nat.eqb (status response) 200) then throw_Error
  else
    body <- await settle (json response) ;;
    resolve (asRT body).

Definition DefaultRestClient_update (id : string) (params : UP)
  : async E network RT :=
  response <- await fetch_call (collectionUrl ++ "/" ++ id)%string
                (Some {| method := "PUT"; headers := json_headers;
                         body := Some (JSON_stringify params) |}) ;;
  if negb (Nat.eqb (status response) 200) then throw_Error
  else
    body <- await settle (json response) ;;
    resolve (asRT body).

Definition DefaultRestClient_partial (id : string) (params : PUP)
  : async E network RT :=
  response <- await fetch_call (collectionUrl ++ "/" ++ id)%string
                (Some {| method := "PATCH"; headers := json_headers;
                         body := Some (JSON_stringify params) |}) ;;
  if negb (Nat.eqb (status response) 200) then throw_Error
  else
    body <- await settle (json response) ;;
    resolve (asRT body).

Definition DefaultRestClient_remove (id : string) : async E network unit :=
  response <- await fetch_call (collectionUrl ++ "/" ++ id)%string
                (Some {| method := "DELETE"; headers := []; body := None |}) ;;
  if negb (Nat.eqb (status response) 200) then throw_Error
  else resolve tt.

(** How the promise of a method settles, for the cacher: the method is run
    from an empty history of [fetch] calls. *)
Definition settled {A} (p : async E network A) : outcome E A := fst (p []).

Definition DefaultRestClient : @RestClient RT CT LP CP UP PUP unit E :=
  {| client_list := fun params => settled (DefaultRestClient_list params);
     client_create := fun params => settled (DefaultRestClient_create params);
     client_view := fun id => settled (DefaultRestClient_view id);
     client_update := fun id params =>
       settled (DefaultRestClient_update id params);
     client_partial := fun id params =>
       settled (DefaultRestClient_partial id params);
     client_remove := fun id => settled (DefaultRestClient_remove id) |}.

(** [createDefaultUseRestClient(collectionUrl)]: the hook returns the one
    client made when the hook was created. *)
Definition createDefaultUseRestClient : unit -> RestClient :=
  let client := DefaultRestClient in
  fun _ => client.

End DefaultRestClient.

(** [createRESTfulSWR({ adapter, useRestClient })]: the two hooks; each
    calls [useRestClient()] for its client. *)
Definition createRESTfulSWR {RT CT LP CP UP PUP VT E Key : Type}
  `{Countable Key} (adapter : ResourceAdapter LP CT RT Key)
  (useRestClient : unit -> @RestClient RT CT LP CP UP PUP VT E)
  : (option LP -> @RESTfulSWRCollection RT CT LP CP UP PUP VT E Key _ _)
    * (option string -> @RESTfulSWRResource RT CT LP CP UP PUP VT E Key _ _) :=
  (fun params => useSWRCollection (useRestClient tt) adapter params,
   fun id => useSWRResource (useRestClient tt) adapter id).

(** ** A server for the basic example

    A parsed body is a resource or an array of resources; the asserted
    types are right for the bodies this server sends. *)
Module BasicServer.

Inductive parsed :=
| JResource (r : Basic.item)
| JArray (l : list Basic.item).

Definition asCT (b : parsed) : list Basic.item :=
  match b with JArray l => l | JResource r => [r] end.

Definition asRT (b : parsed) : Basic.item :=
  match b with JResource r => r | JArray l => List.hd Basic.item1 l end.

Definition quote : string := String (Ascii.ascii_of_nat 34) EmptyString.

Global Instance stringify_bool : Stringify bool :=
  fun b => ("{" ++ quote ++ "mock" ++ quote ++ ":"
            ++ (if b then "true" else "false") ++ "}")%string.

Global Instance stringify_partial : Stringify (option bool) :=
  fun o => match o with Some b => JSON_stringify b | None => "{}" end.

Definition URLSearchParams_toString (page : nat) : string :=
  match page with 0 => "page=0" | 1 => "page=1" | _ => "page=2" end.

(** Every request is answered with the status [st] and the body [b]. *)
Definition answering (st : nat) (b : parsed)
  : string -> option RequestInit -> outcome string (Response string parsed) :=
  fun _ _ => Resolved {| status := st; json := Resolved b |}.

(** Every request is answered with the status [st] and a body that is not
    JSON. *)
Definition answering_garbage (st : nat)
  : string -> option RequestInit -> outcome string (Response string parsed) :=
  fun _ _ => Resolved {| status := st;
                         json := Rejected (Error "Unexpected token") |}.

Definition client (fetch : string -> option RequestInit ->
                           outcome string (Response string parsed))
  : @RestClient Basic.item (list Basic.item) nat bool bool (option bool)
      unit string :=
  DefaultRestClient fetch URLSearchParams_toString asCT asRT "/collection".

(** No request is answered: [fetch] rejects. *)
Definition offline
  : string -> option RequestInit -> outcome string (Response string parsed) :=
  fun _ _ => Rejected (Error "Failed to fetch").

(** A cache whose entry under [collectionKey()] is [null]. *)
Definition world_null
  : @world Basic.item (list Basic.item) nat bool bool (option bool)
      (list (key_part nat)) _ _ :=
  {| cache := <[collectionKey Basic.adapter None := Null]> ∅;
     mutations := []; requests := []; revalidations := [] |}.

(** A mocked client whose [view] answers another resource than the one
    asked for. *)
Definition answering_item2 : RestClient :=
  Basic.restClient (Resolved [Basic.item1; Basic.item2])
    (Resolved Basic.item2) (Resolved tt).

(** A paged collection with one item. *)
Definition page1 : Paged.collection :=
  {| Paged.items := [Basic.item1]; Paged.page := 1; Paged.count := 1 |}.

(** The hooks of the basic example over the default client. *)
Definition hooks (fetch : string -> option RequestInit ->
                          outcome string (Response string parsed)) :=
  createRESTfulSWR Basic.adapter
    (createDefaultUseRestClient (RT := Basic.item) (CT := list Basic.item)
       (CP := bool) (UP := bool) (PUP := option bool)
       fetch URLSearchParams_toString asCT asRT "/collection").

End BasicServer.

(** * Properties *)

(** ** The scans of [defaultUpsert] and [defaultFilter] *)

Section DefaultBlocksFacts.
Context {RT : Type}.
Variable adapt_id : RT -> string.

Lemma has_id_present i collection :
  has_id adapt_id i collection = true <-> id_present adapt_id i collection.
Proof.
  unfold has_id, id_present. rewrite existsb_exists. split.
  - intros (r & Hin & Heq). exists r. split.
    + by apply list_elem_of_In.
    + by apply String.eqb_eq.
  - intros (r & Hin & Heq). exists r. split.
    + by apply list_elem_of_In.
    + by apply String.eqb_eq.
Qed.

Lemma has_id_absent i collection :
  has_id adapt_id i collection = false <->
  forall r, r ∈ collection -> adapt_id r <> i.
Proof.
  rewrite <- not_true_iff_false, has_id_present. unfold id_present. split.
  - intros Hno r Hin Heq. apply Hno. eauto.
  - intros Hno (r & Hin & Heq). by apply (Hno r).
Qed.

(** What the [map] of [defaultUpsert] computes, from any value [s] of the
    captured [inserted]: every match is replaced, and [inserted] is cleared
    as soon as there is a match. *)
Lemma upsert_scan resource collection s :
  Array_map
    (fun r inserted =>
       if String.eqb (adapt_id r) (adapt_id resource)
       then (resource, false) else (r, inserted))
    collection s
  = (replace_every_match adapt_id resource collection,
     if has_id adapt_id (adapt_id resource) collection then false else s).
Proof.
  revert s. induction collection as [| r rest IH]; intros s; [done |].
  cbn [Array_map].
  destruct (String.eqb (adapt_id r) (adapt_id resource)) eqn:Hr;
    rewrite IH; unfold replace_every_match, has_id; cbn; rewrite Hr; cbn;
    by destruct (existsb _ rest).
Qed.

(** What the [filter] of [defaultFilter] computes, from any value [s] of
    the captured [removed]. *)
Lemma filter_scan i collection s :
  Array_filter
    (fun r removed =>
       (negb (String.eqb (adapt_id r) i),
        if String.eqb (adapt_id r) i then true else removed))
    collection s
  = (List.filter (fun r => negb (String.eqb (adapt_id r) i)) collection,
     if has_id adapt_id i collection then true else s).
Proof.
  revert s. induction collection as [| r rest IH]; intros s; [done |].
  cbn [Array_filter].
  destruct (String.eqb (adapt_id r) i) eqn:Hr;
    cbn [negb]; rewrite IH; unfold has_id; cbn; rewrite Hr; cbn;
    by destruct (existsb _ rest).
Qed.

Lemma defaultUpsert_eq resource collection :
  defaultUpsert adapt_id resource collection =
  if has_id adapt_id (adapt_id resource) collection
  then {| inserted := false;
          upsert_result := replace_every_match adapt_id resource collection |}
  else {| inserted := true; upsert_result := collection ++ [resource] |}.
Proof.
  unfold defaultUpsert. rewrite upsert_scan.
  by destruct (has_id _ _ _).
Qed.

Lemma defaultFilter_eq i collection :
  defaultFilter adapt_id i collection =
  {| removed := has_id adapt_id i collection;
     filter_result :=
       List.filter (fun r => negb (String.eqb (adapt_id r) i)) collection |}.
Proof.
  unfold defaultFilter. rewrite filter_scan.
  by destruct (has_id _ _ _).
Qed.

Lemma filter_no_match i collection :
  has_id adapt_id i collection = false ->
  List.filter (fun r => negb (String.eqb (adapt_id r) i)) collection
  = collection.
Proof.
  unfold has_id. induction collection as [| r rest IH]; [done |].
  cbn. destruct (String.eqb (adapt_id r) i); [done |].
  cbn. intros Hrest. by rewrite IH.
Qed.

Lemma replace_every_no_match resource collection :
  has_id adapt_id (adapt_id resource) collection = false ->
  replace_every_match adapt_id resource collection = collection.
Proof.
  unfold has_id, replace_every_match.
  induction collection as [| r rest IH]; [done |].
  cbn. destruct (String.eqb (adapt_id r) (adapt_id resource)); [done |].
  cbn. intros Hrest. by rewrite IH.
Qed.

(** With distinct ids in the collection, the first match is the only one. *)
Lemma replace_every_first resource collection :
  NoDup (adapt_id <$> collection) ->
  replace_every_match adapt_id resource collection
  = replace_first_match adapt_id resource collection.
Proof.
  induction collection as [| r rest IH]; [done |].
  rewrite fmap_cons, NoDup_cons. intros [Hfresh Hrest].
  change (replace_every_match adapt_id resource (r :: rest))
    with ((if String.eqb (adapt_id r) (adapt_id resource) then resource else r)
          :: replace_every_match adapt_id resource rest).
  cbn [replace_first_match].
  destruct (String.eqb_spec (adapt_id r) (adapt_id resource)) as [Heq | Hne].
  - f_equal. apply replace_every_no_match, has_id_absent.
    intros x Hx Hid. apply Hfresh. rewrite Heq, <- Hid.
    by apply list_elem_of_fmap_2.
  - f_equal. by apply IH.
Qed.

End DefaultBlocksFacts.

(** ** The default adapter *)

Section DefaultRestAdapterFacts.
Context {LP RK RT : Type}.
Variable get : RT -> RK -> string.
Variables (cacheKey : string) (idKey : RK).

Local Abbreviation adapter :=
  (DefaultRestAdapter (LP := LP) get cacheKey idKey).

(** C6, as amended.  When the id of [r] is present in [C], [all (upsert r C)]
    has the length of [all C]; at every index, an element whose id is the id
    of [r] is replaced by [r] and any other element is unchanged;
    [defaultUpsert] reports [inserted = false].  When the ids of [C] are
    distinct, the result is [C] with its first match replaced. *)
Theorem upsert_present_replaces_every_match (r : RT) (C : list RT) :
  id_present (id adapter) (id adapter r) (all adapter C) ->
  length (all adapter (upsert adapter r C)) = length (all adapter C)
  /\ (forall n x,
        all adapter C !! n = Some x ->
        all adapter (upsert adapter r C) !! n =
        Some (if String.eqb (id adapter x) (id adapter r) then r else x))
  /\ inserted (defaultUpsert (id adapter) r C) = false
  /\ (NoDup (id adapter <$> all adapter C) ->
      all adapter (upsert adapter r C)
      = replace_first_match (id adapter) r (all adapter C)).
Proof.
  intros Hpresent. apply has_id_present in Hpresent.
  cbn [all upsert id DefaultRestAdapter] in *.
  unfold DefaultRestAdapter_all, DefaultRestAdapter_upsert in *.
  rewrite defaultUpsert_eq, Hpresent. cbn [inserted upsert_result].
  split_and!; [| | done |].
  - unfold replace_every_match. apply length_fmap.
  - intros n x Hx. unfold replace_every_match.
    by rewrite list_lookup_fmap, Hx.
  - apply replace_every_first.
Qed.

(** C7.  When the id of [r] is not present in [C], [all (upsert r C)] is
    [all C] followed by [r], and [defaultUpsert] reports
    [inserted = true]. *)
Theorem upsert_absent_appends (r : RT) (C : list RT) :
  (forall x, x ∈ all adapter C -> id adapter x <> id adapter r) ->
  all adapter (upsert adapter r C) = all adapter C ++ [r]
  /\ inserted (defaultUpsert (id adapter) r C) = true
  /\ upsert_result (defaultUpsert (id adapter) r C) = C ++ [r].
Proof.
  intros Habsent. apply has_id_absent in Habsent.
  cbn [all upsert id DefaultRestAdapter] in *.
  unfold DefaultRestAdapter_all, DefaultRestAdapter_upsert in *.
  by rewrite defaultUpsert_eq, Habsent.
Qed.

(** C8.  When no element of [all C] has the id [i], [all (remove i C)] is
    [all C], and [defaultFilter] reports [removed = false]; conversely,
    on any collection, [removed = false] only when no element has the id. *)
Theorem remove_absent_unchanged (i : string) (C : list RT) :
  (forall x, x ∈ all adapter C -> id adapter x <> i) ->
  all adapter (remove adapter i C) = all adapter C
  /\ removed (defaultFilter (id adapter) i C) = false
  /\ (forall C' : list RT,
        removed (defaultFilter (id adapter) i C') = false ->
        forall x, x ∈ C' -> id adapter x <> i).
Proof.
  intros Habsent. apply has_id_absent in Habsent.
  cbn [all remove id DefaultRestAdapter] in *.
  unfold DefaultRestAdapter_all, DefaultRestAdapter_remove in *.
  rewrite defaultFilter_eq. cbn [removed filter_result].
  split_and!; [by apply filter_no_match | done |].
  intros C'. rewrite defaultFilter_eq. cbn [removed].
  intros Hfalse. exact (proj1 (has_id_absent _ _ _) Hfalse).
Qed.

(** C9.  [resourceKey r] and [resourceKey (id r)] are the same key: the
    cache key followed by the id of [r]. *)
Theorem resourceKey_of_id (r : RT) :
  resourceKey adapter (inl r) = resourceKey adapter (inr (id adapter r))
  /\ resourceKey adapter (inr (id adapter r))
     = [KString cacheKey; KString (get r idKey)].
Proof. split; reflexivity. Qed.

(** The keys of the default adapter never collide: a resource key ends in a
    string, the unparameterized collection key in [undefined]. *)
Lemma resourceKey_not_collectionKey (x : RT + string) :
  resourceKey adapter x <> collectionKey adapter None.
Proof. discriminate. Qed.

End DefaultRestAdapterFacts.

(** ** The paged adapter of the test suite obeys the same laws *)

Lemma paged_upsert_absent (r : Basic.item) (C : Paged.collection) :
  (forall x, x ∈ all Paged.adapter C ->
             id Paged.adapter x <> id Paged.adapter r) ->
  all Paged.adapter (upsert Paged.adapter r C) = all Paged.adapter C ++ [r]
  /\ Paged.count (upsert Paged.adapter r C) = (Paged.count C + 1)%Z.
Proof.
  intros Habsent. apply has_id_absent in Habsent.
  cbn [all upsert remove id Paged.adapter] in *.
  rewrite defaultUpsert_eq, Habsent. cbn. done.
Qed.

Lemma paged_upsert_present (r : Basic.item) (C : Paged.collection) :
  id_present (id Paged.adapter) (id Paged.adapter r) (all Paged.adapter C) ->
  all Paged.adapter (upsert Paged.adapter r C)
  = replace_every_match (id Paged.adapter) r (all Paged.adapter C)
  /\ Paged.count (upsert Paged.adapter r C) = Paged.count C.
Proof.
  intros Hpresent. apply has_id_present in Hpresent.
  cbn [all upsert remove id Paged.adapter] in *.
  rewrite defaultUpsert_eq, Hpresent. cbn. split; [done | lia].
Qed.

Lemma paged_remove_absent (i : string) (C : Paged.collection) :
  (forall x, x ∈ all Paged.adapter C -> id Paged.adapter x <> i) ->
  remove Paged.adapter i C = C.
Proof.
  intros Habsent. apply has_id_absent in Habsent.
  cbn [all upsert remove id Paged.adapter] in *.
  rewrite defaultFilter_eq. cbn. rewrite Habsent, filter_no_match by done.
  destruct C as [its pg cnt]. cbn. f_equal. lia.
Qed.

(** C6, the counterexample: the collection holds two elements with the id
    of [r]; the second one is not the first match, and is replaced too. *)
Lemma upsert_replaces_later_match :
  id_present (id Basic.adapter) (id Basic.adapter Basic.item1')
    (all Basic.adapter [Basic.item1; Basic.item1])
  /\ all Basic.adapter
       (upsert Basic.adapter Basic.item1' [Basic.item1; Basic.item1])
     = [Basic.item1'; Basic.item1']
  /\ replace_first_match (id Basic.adapter) Basic.item1'
       (all Basic.adapter [Basic.item1; Basic.item1])
     = [Basic.item1'; Basic.item1]
  /\ all Basic.adapter
       (upsert Basic.adapter Basic.item1' [Basic.item1; Basic.item1])
     <> replace_first_match (id Basic.adapter) Basic.item1'
          (all Basic.adapter [Basic.item1; Basic.item1]).
Proof.
  split_and!; [| reflexivity | reflexivity | discriminate].
  exists Basic.item1. split; [left | reflexivity].
Qed.

Lemma upsert_present_replaces_every_match_witness :
  id_present (id Basic.adapter) "1" [Basic.item1; Basic.item2]
  /\ upsert Basic.adapter Basic.item1' [Basic.item1; Basic.item2]
     = [Basic.item1'; Basic.item2].
Proof.
  assert (Hp : id_present (id Basic.adapter) (id Basic.adapter Basic.item1')
                 (all Basic.adapter [Basic.item1; Basic.item2])).
  { exists Basic.item1. split; [left | reflexivity]. }
  split; [exact Hp |].
  destruct (upsert_present_replaces_every_match (LP := nat) Basic.item_get
              "/collection" Basic.ID Basic.item1'
              [Basic.item1; Basic.item2] Hp) as (_ & _ & _ & Hfirst).
  apply Hfirst. apply (bool_decide_unpack _). reflexivity.
Defined.

Lemma upsert_absent_appends_witness :
  (forall x, x ∈ [Basic.item1] -> id Basic.adapter x <> "2")
  /\ upsert Basic.adapter Basic.item2 [Basic.item1]
     = [Basic.item1; Basic.item2].
Proof.
  assert (Ha : forall x, x ∈ all Basic.adapter [Basic.item1] ->
                 id Basic.adapter x <> id Basic.adapter Basic.item2).
  { exact (proj1 (has_id_absent (id Basic.adapter) "2" [Basic.item1])
             eq_refl). }
  split; [exact Ha |].
  apply (upsert_absent_appends (LP := nat) Basic.item_get "/collection"
           Basic.ID Basic.item2 [Basic.item1] Ha).
Defined.

Lemma remove_absent_unchanged_witness :
  (forall x, x ∈ [Basic.item1; Basic.item2] -> id Basic.adapter x <> "3")
  /\ remove Basic.adapter "3" [Basic.item1; Basic.item2]
     = [Basic.item1; Basic.item2].
Proof.
  assert (Ha : forall x, x ∈ all Basic.adapter [Basic.item1; Basic.item2] ->
                 id Basic.adapter x <> "3").
  { exact (proj1 (has_id_absent (id Basic.adapter) "3"
                    [Basic.item1; Basic.item2]) eq_refl). }
  split; [exact Ha |].
  apply (remove_absent_unchanged (LP := nat) Basic.item_get "/collection"
           Basic.ID "3" [Basic.item1; Basic.item2] Ha).
Defined.

(** ** The resource cacher *)

Section ResourceCacherFacts.
Context {RT CT LP CP UP PUP VT E Key : Type} `{Countable Key}.
Variable client : @RestClient RT CT LP CP UP PUP VT E.
Variable adapter : ResourceAdapter LP CT RT Key.

Local Abbreviation world := (@world RT CT LP CP UP PUP Key _ _).
Local Abbreviation cached := (@cached RT CT).

Lemma and_then_undefined (f : CT -> CT) :
  and_then (None : option cached) f = None.
Proof. reflexivity. Qed.

Lemma and_then_null (f : CT -> CT) :
  and_then (Some (Null : cached)) f = Some Null.
Proof. reflexivity. Qed.

Lemma and_then_collection (f : CT -> CT) (c : CT) :
  and_then (Some (Coll c : cached)) f = Some (Coll (f c)).
Proof. reflexivity. Qed.


(** The state after a call on the remote client was made from [w]. *)
Lemma then_call_resolved {A B} (req : request) (a : A)
  (k : A -> async E world B) (w : world) :
  then_ (call req (Resolved a)) k w
  = k a {| cache := cache w; mutations := mutations w;
           requests := requests w ++ [req];
           revalidations := revalidations w |}.
Proof. reflexivity. Qed.

Lemma then_call_rejected {A B} (req : request) (reason : thrown E)
  (k : A -> async E world B) (w : world) :
  then_ (call req (Rejected reason)) k w
  = (Rejected reason,
     {| cache := cache w; mutations := mutations w;
        requests := requests w ++ [req];
        revalidations := revalidations w |}).
Proof. reflexivity. Qed.

(** A [for ... of] loop of literal no-revalidate writes: one write per
    item, in the order of the items. *)
Lemma for_of_mutate {A} (key : A -> Key) (data : A -> cached)
  (items : list A) (w : world) :
  for_of (E := E) items (fun x => mutate (key x) (Data (data x)) false) w
  = (Resolved tt,
     {| cache := foldl (fun c x => <[key x := data x]> c) (cache w) items;
        mutations := mutations w ++
          ((fun x => {| mutation_key := key x;
                        mutation_data := Data (data x);
                        revalidate := false |}) <$> items);
        requests := requests w;
        revalidations := revalidations w |}).
Proof.
  revert w. induction items as [| x rest IH]; intros w.
  - cbn. rewrite app_nil_r. by destruct w.
  - cbn [for_of]. unfold then_ at 1. cbn [mutate]. rewrite IH. cbn.
    by rewrite <- app_assoc.
Qed.

(** C1.  When the remote [list] resolves with a collection, [listResources]
    writes the collection under [collectionKey params], then each resource
    of [all collection] under its own [resourceKey], in the order of [all],
    every write with [revalidate: false] (no refetch is triggered), and it
    resolves with the collection. *)
Theorem listResources_writes (params : option LP) (collection : CT)
  (w : world) :
  client_list client params = Resolved collection ->
  let out := listResources client adapter params w in
  fst out = Resolved collection
  /\ mutations (snd out) =
     mutations w ++
     {| mutation_key := collectionKey adapter params;
        mutation_data := Data (Coll collection);
        revalidate := false |}
     :: ((fun resource =>
            {| mutation_key := resourceKey adapter (inl resource);
               mutation_data := Data (Res resource);
               revalidate := false |}) <$> all adapter collection)
  /\ cache (snd out) =
     foldl (fun c resource =>
              <[resourceKey adapter (inl resource) := Res resource]> c)
       (<[collectionKey adapter params := Coll collection]> (cache w))
       (all adapter collection)
  /\ revalidations (snd out) = revalidations w
  /\ requests (snd out) = requests w ++ [ListReq params].
Proof.
  intros Hlist. unfold listResources, then_, call. rewrite Hlist.
  cbn [mutate]. rewrite for_of_mutate. cbn.
  split_and!; try done. by rewrite <- app_assoc.
Qed.

(** The two writes shared by [createResource], [viewResource],
    [updateResource] and [partialResource], run from [w]. *)
Lemma upsert_then_write (resource : RT) (w : world) :
  (await mutate (collectionKey adapter None)
     (MutatorCallback (fun collection =>
        and_then collection (upsert adapter resource)))
     false ;;
   await mutate (resourceKey adapter (inl resource)) (Data (Res resource))
     false ;;
   resolve (E := E) resource) w
  = (Resolved resource,
     {| cache :=
          <[resourceKey adapter (inl resource) := Res resource]>
            (partial_alter
               (fun collection => and_then collection (upsert adapter resource))
               (collectionKey adapter None) (cache w));
        mutations := mutations w ++
          [ {| mutation_key := collectionKey adapter None;
               mutation_data :=
                 MutatorCallback (fun collection =>
                   and_then collection (upsert adapter resource));
               revalidate := false |};
            {| mutation_key := resourceKey adapter (inl resource);
               mutation_data := Data (Res resource);
               revalidate := false |} ];
        requests := requests w;
        revalidations := revalidations w |}).
Proof. unfold then_, mutate, resolve. cbn. by rewrite <- app_assoc. Qed.



(** The two writes of [removeResource], run from [w]. *)
Lemma remove_then_tombstone {A} (i : string) (response : A) (w : world) :
  (await mutate (collectionKey adapter None)
     (MutatorCallback (fun collection =>
        and_then collection (remove adapter i)))
     false ;;
   await mutate (resourceKey adapter (inr i)) (Data Null) false ;;
   resolve (E := E) response) w
  = (Resolved response,
     {| cache :=
          <[resourceKey adapter (inr i) := Null]>
            (partial_alter
               (fun collection => and_then collection (remove adapter i))
               (collectionKey adapter None) (cache w));
        mutations := mutations w ++
          [ {| mutation_key := collectionKey adapter None;
               mutation_data :=
                 MutatorCallback (fun collection =>
                   and_then collection (remove adapter i));
               revalidate := false |};
            {| mutation_key := resourceKey adapter (inr i);
               mutation_data := Data Null;
               revalidate := false |} ];
        requests := requests w;
        revalidations := revalidations w |}).
Proof. unfold then_, mutate, resolve. cbn. by rewrite <- app_assoc. Qed.


(** [viewResource], [updateResource] and [partialResource] propagate a
    resolved resource the way [createResource] does. *)
Lemma same_propagation (i : string) (up : UP) (pup : PUP) (cp : CP)
  (resource : RT) (w : world) :
  client_create client cp = Resolved resource ->
  let created := snd (createResource client adapter cp w) in
  (client_view client i = Resolved resource ->
   fst (viewResource client adapter i w) = Resolved resource
   /\ cache (snd (viewResource client adapter i w)) = cache created
   /\ mutations (snd (viewResource client adapter i w)) = mutations created)
  /\ (client_update client i up = Resolved resource ->
   fst (updateResource client adapter i up w) = Resolved resource
   /\ cache (snd (updateResource client adapter i up w)) = cache created
   /\ mutations (snd (updateResource client adapter i up w))
      = mutations created)
  /\ (client_partial client i pup = Resolved resource ->
   fst (partialResource client adapter i pup w) = Resolved resource
   /\ cache (snd (partialResource client adapter i pup w)) = cache created
   /\ mutations (snd (partialResource client adapter i pup w))
      = mutations created).
Proof.
  intros Hcreate created. subst created.
  unfold createResource, viewResource, updateResource, partialResource.
  rewrite Hcreate, then_call_resolved. cbv zeta. rewrite upsert_then_write.
  split_and!; intros ->; rewrite then_call_resolved, upsert_then_write; done.
Qed.

(** C4.  For each of the six operations, when the call on the remote client
    rejects, the operation rejects with the same reason, and the cache, the
    history of writes and the revalidations are what they were: the only
    effect is the remote call. *)
Theorem remote_rejection_writes_nothing (reason : thrown E) (w : world) :
  (forall params,
     client_list client params = Rejected reason ->
     rejected_without_write (listResources client adapter params)
       (ListReq params) reason w)
  /\ (forall params,
     client_create client params = Rejected reason ->
     rejected_without_write (createResource client adapter params)
       (CreateReq params) reason w)
  /\ (forall i,
     client_view client i = Rejected reason ->
     rejected_without_write (viewResource client adapter i)
       (ViewReq i) reason w)
  /\ (forall i params,
     client_update client i params = Rejected reason ->
     rejected_without_write (updateResource client adapter i params)
       (UpdateReq i params) reason w)
  /\ (forall i params,
     client_partial client i params = Rejected reason ->
     rejected_without_write (partialResource client adapter i params)
       (PartialReq i params) reason w)
  /\ (forall i,
     client_remove client i = Rejected reason ->
     rejected_without_write (removeResource client adapter i)
       (RemoveReq i) reason w).
Proof.
  unfold rejected_without_write.
  split_and!; intros;
    unfold listResources, createResource, viewResource, updateResource,
      partialResource, removeResource;
    match goal with Hr : _ = Rejected _ |- _ => rewrite Hr end;
    rewrite then_call_rejected; done.
Qed.

(** Every operation of the cacher starts with its call on the remote
    client. *)
Lemma viewResource_requests (i : string) (w : world) :
  requests (snd (viewResource client adapter i w)) = requests w ++ [ViewReq i].
Proof.
  unfold viewResource. destruct (client_view client i) as [resource | reason].
  - rewrite then_call_resolved. by rewrite upsert_then_write.
  - by rewrite then_call_rejected.
Qed.

Lemma updateResource_requests (i : string) (params : UP) (w : world) :
  requests (snd (updateResource client adapter i params w))
  = requests w ++ [UpdateReq i params].
Proof.
  unfold updateResource.
  destruct (client_update client i params) as [resource | reason].
  - rewrite then_call_resolved. by rewrite upsert_then_write.
  - by rewrite then_call_rejected.
Qed.

Lemma partialResource_requests (i : string) (params : PUP) (w : world) :
  requests (snd (partialResource client adapter i params w))
  = requests w ++ [PartialReq i params].
Proof.
  unfold partialResource.
  destruct (client_partial client i params) as [resource | reason].
  - rewrite then_call_resolved. by rewrite upsert_then_write.
  - by rewrite then_call_rejected.
Qed.

Lemma removeResource_requests (i : string) (w : world) :
  requests (snd (removeResource client adapter i w))
  = requests w ++ [RemoveReq i].
Proof.
  unfold removeResource.
  destruct (client_remove client i) as [response | reason].
  - rewrite then_call_resolved. cbv zeta. by rewrite remove_then_tombstone.
  - by rewrite then_call_rejected.
Qed.

(** ** The resource-scoped hook *)

Lemma not_id_true (id : option string) :
  not_id id = true <-> id = None \/ id = Some "".
Proof.
  destruct id as [s |]; cbn.
  - rewrite String.eqb_eq. split; [intros ->; by right |].
    by intros [? | [= ->]].
  - split; [by left | done].
Qed.

Lemma assertId_throws (id : option string) :
  id = None \/ id = Some "" ->
  assertId (E := E) id = Rejected (Error "id is undefined").
Proof. by intros [-> | ->]. Qed.

Lemma assertId_returns (s : string) :
  s <> "" -> assertId (E := E) (Some s) = Resolved s.
Proof.
  intros Hs. unfold assertId. cbn.
  apply String.eqb_neq in Hs. by rewrite Hs.
Qed.

(** A state is not the state after one more remote call. *)
Lemma requests_grow (w w' : world) (req : request) :
  requests w' = requests w ++ [req] -> w' <> w.
Proof.
  intros Hreq ->. apply (f_equal length) in Hreq.
  rewrite length_app in Hreq. cbn in Hreq. lia.
Qed.

(** An operation guarded by [assertId] rejects in the state it was started
    from exactly when the id is undefined or empty: with any other id the
    guarded operation [k] runs, and makes its remote call. *)
Lemma assertId_guard {A} (id : option string)
  (k : string -> async E world A) (req : string -> request) (w : world) :
  (forall s, requests (snd (k s w)) = requests w ++ [req s]) ->
  then_ (settle (assertId id)) k w = identifier_missing w
  <-> id = None \/ id = Some "".
Proof.
  intros Hk. split; [| by intros [-> | ->]].
  intros Hthrow. destruct id as [s |]; [| by left]. right.
  destruct (decide (s = "")) as [-> | Hs]; [done | exfalso].
  unfold then_, settle in Hthrow. rewrite (assertId_returns s Hs) in Hthrow.
  apply (f_equal snd) in Hthrow. unfold identifier_missing in Hthrow.
  cbn [snd] in Hthrow. by apply (requests_grow w _ (req s) (Hk s)).
Qed.

(** C5.  On the binding with no bound id, [view], [update], [partial] and
    [remove] reject with the error [id is undefined] and leave the state as
    it was: no call on the remote client is made. *)
Theorem missing_id_rejects (w : world) :
  let hook := useSWRResource client adapter None in
  resource_view (resource_api_of hook) w
  = (Rejected (Error "id is undefined"), w)
  /\ (forall params,
        resource_update (resource_api_of hook) params w
        = (Rejected (Error "id is undefined"), w))
  /\ (forall params,
        resource_partial (resource_api_of hook) params w
        = (Rejected (Error "id is undefined"), w))
  /\ resource_remove (resource_api_of hook) w
     = (Rejected (Error "id is undefined"), w)
  /\ resource_response hook = None.
Proof. by split_and!. Qed.

(** C10.  On the binding bound to the empty string the four operations
    reject in the same way; and, for any bound id, each of them rejects
    with [id is undefined] before any remote call exactly when the id is
    undefined or empty. *)
Theorem empty_id_rejects (w : world) :
  let api := fun id => resource_api_of (useSWRResource client adapter id) in
  (resource_view (api (Some "")) w = identifier_missing w
   /\ (forall params,
         resource_update (api (Some "")) params w = identifier_missing w)
   /\ (forall params,
         resource_partial (api (Some "")) params w = identifier_missing w)
   /\ resource_remove (api (Some "")) w = identifier_missing w)
  /\ (forall id,
        assertId (E := E) id = Rejected (Error "id is undefined")
        <-> id = None \/ id = Some "")
  /\ (forall id,
        resource_view (api id) w = identifier_missing w
        <-> id = None \/ id = Some "")
  /\ (forall id params,
        resource_update (api id) params w = identifier_missing w
        <-> id = None \/ id = Some "")
  /\ (forall id params,
        resource_partial (api id) params w = identifier_missing w
        <-> id = None \/ id = Some "")
  /\ (forall id,
        resource_remove (api id) w = identifier_missing w
        <-> id = None \/ id = Some "").
Proof.
  intros api. split_and!; try done.
  - intros id. rewrite <- not_id_true. unfold assertId.
    destruct id as [s |]; cbn; [destruct (String.eqb s "") |]; by split.
  - intros id.
    apply (assertId_guard id (viewResource client adapter) ViewReq).
    intros s. apply viewResource_requests.
  - intros id params.
    apply (assertId_guard id
             (fun s => updateResource client adapter s params)
             (fun s => UpdateReq s params)).
    intros s. apply updateResource_requests.
  - intros id params.
    apply (assertId_guard id
             (fun s => partialResource client adapter s params)
             (fun s => PartialReq s params)).
    intros s. apply partialResource_requests.
  - intros id.
    apply (assertId_guard id (removeResource client adapter) RemoveReq).
    intros s. apply removeResource_requests.
Qed.

End ResourceCacherFacts.

(** ** The theorems at the basic example of the test suite *)

Lemma listResources_writes_witness :
  client_list Basic.resolving None = Resolved [Basic.item1; Basic.item2]
  /\ mutations
       (snd (listResources Basic.resolving Basic.adapter None Basic.world0))
     = [ {| mutation_key := [KString "/collection"; KUndefined];
            mutation_data := Data (Coll [Basic.item1; Basic.item2]);
            revalidate := false |};
         {| mutation_key := [KString "/collection"; KString "1"];
            mutation_data := Data (Res Basic.item1);
            revalidate := false |};
         {| mutation_key := [KString "/collection"; KString "2"];
            mutation_data := Data (Res Basic.item2);
            revalidate := false |} ].
Proof.
  split; [reflexivity |].
  exact (proj1 (proj2 (listResources_writes Basic.resolving Basic.adapter
                         None [Basic.item1; Basic.item2] Basic.world0
                         eq_refl))).
Defined.



Lemma remote_rejection_writes_nothing_witness :
  client_list Basic.rejecting None = Rejected Basic.clientError
  /\ rejected_without_write
       (listResources Basic.rejecting Basic.adapter None)
       (ListReq None) Basic.clientError Basic.world1
  /\ rejected_without_write
       (createResource Basic.rejecting Basic.adapter true)
       (CreateReq true) Basic.clientError Basic.world1
  /\ rejected_without_write
       (viewResource Basic.rejecting Basic.adapter "1")
       (ViewReq "1") Basic.clientError Basic.world1
  /\ rejected_without_write
       (updateResource Basic.rejecting Basic.adapter "1" false)
       (UpdateReq "1" false) Basic.clientError Basic.world1
  /\ rejected_without_write
       (partialResource Basic.rejecting Basic.adapter "1" None)
       (PartialReq "1" None) Basic.clientError Basic.world1
  /\ rejected_without_write
       (removeResource Basic.rejecting Basic.adapter "1")
       (RemoveReq "1") Basic.clientError Basic.world1.
Proof.
  pose proof (remote_rejection_writes_nothing Basic.rejecting Basic.adapter
                Basic.clientError Basic.world1)
    as (Hlist & Hcreate & Hview & Hupdate & Hpartial & Hremove).
  split; [reflexivity |].
  split; [exact (Hlist None eq_refl) |].
  split; [exact (Hcreate true eq_refl) |].
  split; [exact (Hview "1" eq_refl) |].
  split; [exact (Hupdate "1" false eq_refl) |].
  split; [exact (Hpartial "1" None eq_refl) |].
  exact (Hremove "1" eq_refl).
Defined.

Lemma empty_id_rejects_witness :
  resource_view
    (resource_api_of
       (useSWRResource Basic.resolving Basic.adapter (Some "")))
    Basic.world1
  = (Rejected (Error "id is undefined"), Basic.world1)
  /\ resource_view
       (resource_api_of
          (useSWRResource Basic.resolving Basic.adapter (Some "1")))
       Basic.world1
     <> identifier_missing Basic.world1.
Proof.
  pose proof (empty_id_rejects Basic.resolving Basic.adapter Basic.world1)
    as ((Hview & _) & _ & Hiff & _).
  split; [exact Hview |].
  intros Hmissing. apply (Hiff (Some "1")) in Hmissing.
  destruct Hmissing as [Hnone | Hempty]; discriminate.
Defined.

(** ** Scenarios of the test suite, run on the model *)

(** "should push response to cache": after [list()] resolved with
    [[item1]], the collection entry holds the collection and the entry of
    the resource ["1"] holds the resource. *)
Example list_then_cache :
  let client := Basic.restClient (Resolved [Basic.item1])
                  (Resolved Basic.item1) (Resolved tt) in
  let w := snd (listResources client Basic.adapter None Basic.world0) in
  cache w !! collectionKey Basic.adapter None = Some (Coll [Basic.item1])
  /\ cache w !! resourceKey Basic.adapter (inr "1") = Some (Res Basic.item1).
Proof. split; reflexivity. Qed.

(** "should add created resource to collection response": from an empty
    collection entry, [create] adds the created resource to it. *)
Example create_appends :
  let w0 := snd (listResources
                   (Basic.restClient (Resolved []) (Resolved Basic.item1')
                      (Resolved tt))
                   Basic.adapter None Basic.world0) in
  let w := snd (createResource Basic.resolving Basic.adapter false w0) in
  cache w !! collectionKey Basic.adapter None = Some (Coll [Basic.item1'])
  /\ cache w !! resourceKey Basic.adapter (inr "1") = Some (Res Basic.item1').
Proof. split; reflexivity. Qed.

(** "should update resource in collection response": [update] replaces the
    listed resource in the collection entry and in its own entry. *)
Example update_replaces :
  let w := snd (updateResource Basic.resolving Basic.adapter "1" false
                  Basic.world1) in
  cache w !! collectionKey Basic.adapter None = Some (Coll [Basic.item1'])
  /\ cache w !! resourceKey Basic.adapter (inr "1") = Some (Res Basic.item1').
Proof. split; reflexivity. Qed.

(** "should throw if no id is available". *)
Example view_without_id :
  resource_view
    (resource_api_of (useSWRResource Basic.resolving Basic.adapter None))
    Basic.world0
  = (Rejected (Error "id is undefined"), Basic.world0).
Proof. reflexivity. Qed.

(** * Further properties *)

(** ** The default building blocks, beyond the scans *)

Section DefaultBlocksAlgebra.
Context {RT : Type}.
Variable adapt_id : RT -> string.

Local Abbreviation keep i :=
  (List.filter (fun r : RT => negb (String.eqb (adapt_id r) i))).

Lemma replace_every_ids resource (collection : list RT) :
  adapt_id <$> replace_every_match adapt_id resource collection
  = adapt_id <$> collection.
Proof.
  unfold replace_every_match.
  induction collection as [| r rest IH]; [done |]. cbn. f_equal; [| done].
  by destruct (String.eqb_spec (adapt_id r) (adapt_id resource)).
Qed.

Lemma replace_every_idempotent resource (collection : list RT) :
  replace_every_match adapt_id resource
    (replace_every_match adapt_id resource collection)
  = replace_every_match adapt_id resource collection.
Proof.
  unfold replace_every_match.
  induction collection as [| r rest IH]; [done |]. cbn. f_equal; [| done].
  destruct (String.eqb (adapt_id r) (adapt_id resource)) eqn:Hr.
  - by rewrite String.eqb_refl.
  - by rewrite Hr.
Qed.

Lemma elem_of_replace_every resource (collection : list RT) x :
  x ∈ replace_every_match adapt_id resource collection ->
  adapt_id x = adapt_id resource -> x = resource.
Proof.
  unfold replace_every_match. intros Hx Hid.
  apply list_elem_of_fmap in Hx as (y & -> & Hy).
  destruct (String.eqb_spec (adapt_id y) (adapt_id resource)); done.
Qed.

Lemma has_id_app i (l k : list RT) :
  has_id adapt_id i (l ++ k) = has_id adapt_id i l || has_id adapt_id i k.
Proof. unfold has_id. apply existsb_app. Qed.

Lemma has_id_replace_every resource i (collection : list RT) :
  has_id adapt_id i (replace_every_match adapt_id resource collection)
  = has_id adapt_id i collection.
Proof.
  unfold has_id, replace_every_match.
  induction collection as [| r rest IH]; [done |]. cbn. rewrite IH.
  f_equal.
  by destruct (String.eqb_spec (adapt_id r) (adapt_id resource)) as [-> |].
Qed.

Lemma keep_app i (l k : list RT) : keep i (l ++ k) = keep i l ++ keep i k.
Proof. apply List.filter_app. Qed.

Lemma keep_replace_every resource (collection : list RT) :
  keep (adapt_id resource) (replace_every_match adapt_id resource collection)
  = keep (adapt_id resource) collection.
Proof.
  unfold replace_every_match.
  induction collection as [| r rest IH]; [done |]. cbn.
  destruct (String.eqb (adapt_id r) (adapt_id resource)) eqn:Hr.
  - rewrite String.eqb_refl. cbn. done.
  - rewrite Hr. cbn. by rewrite IH.
Qed.

Lemma has_id_keep i (collection : list RT) :
  has_id adapt_id i (keep i collection) = false.
Proof.
  unfold has_id. induction collection as [| r rest IH]; [done |]. cbn.
  destruct (String.eqb (adapt_id r) i) eqn:Hr; cbn; [done |].
  by rewrite Hr.
Qed.

Lemma elem_of_keep i (collection : list RT) x :
  x ∈ keep i collection <-> x ∈ collection /\ adapt_id x <> i.
Proof.
  rewrite !list_elem_of_In, List.filter_In, negb_true_iff.
  by rewrite String.eqb_neq.
Qed.

Lemma keep_sublist i (collection : list RT) :
  sublist (keep i collection) collection.
Proof.
  induction collection as [| r rest IH]; [done |]. cbn.
  destruct (negb (String.eqb (adapt_id r) i)).
  - by apply sublist_skip.
  - by apply sublist_cons.
Qed.

(** With distinct ids, at most one element is dropped. *)
Lemma keep_length_distinct i (collection : list RT) :
  NoDup (adapt_id <$> collection) ->
  length collection
  = length (keep i collection)
    + (if has_id adapt_id i collection then 1 else 0).
Proof.
  unfold has_id. induction collection as [| r rest IH]; [done |].
  rewrite fmap_cons, NoDup_cons. intros [Hfresh Hrest]. cbn.
  destruct (String.eqb_spec (adapt_id r) i) as [Heq | Hne]; cbn.
  - rewrite filter_no_match; [lia |]. apply has_id_absent.
    intros x Hx Hid. apply Hfresh. rewrite Heq, <- Hid.
    by apply list_elem_of_fmap_2.
  - rewrite (IH Hrest). lia.
Qed.

End DefaultBlocksAlgebra.

(** ** The default adapter: how [upsert] and [remove] compose *)

Section DefaultRestAdapterAlgebra.
Context {LP RK RT : Type}.
Variable get : RT -> RK -> string.
Variables (cacheKey : string) (idKey : RK).

Local Abbreviation adapter :=
  (DefaultRestAdapter (LP := LP) get cacheKey idKey).

Lemma upsert_cases (r : RT) (C : list RT) :
  upsert adapter r C
  = if has_id (id adapter) (id adapter r) C
    then replace_every_match (id adapter) r C
    else C ++ [r].
Proof.
  cbn [upsert id DefaultRestAdapter]. unfold DefaultRestAdapter_upsert.
  rewrite defaultUpsert_eq. by destruct (has_id _ _ _).
Qed.

Lemma remove_filter (i : string) (C : list RT) :
  remove adapter i C
  = List.filter (fun r => negb (String.eqb (id adapter r) i)) C.
Proof.
  cbn [remove id DefaultRestAdapter]. unfold DefaultRestAdapter_remove.
  by rewrite defaultFilter_eq.
Qed.

(** X1.  Upserting the same resource twice is upserting it once, on any
    collection: the second call finds the id and replaces the resource by
    itself. *)
Theorem upsert_idempotent (r : RT) (C : list RT) :
  upsert adapter r (upsert adapter r C) = upsert adapter r C.
Proof.
  rewrite (upsert_cases r C).
  destruct (has_id (id adapter) (id adapter r) C) eqn:Hpresent.
  - rewrite upsert_cases, has_id_replace_every, Hpresent.
    apply replace_every_idempotent.
  - rewrite upsert_cases, has_id_app, Hpresent.
    unfold has_id at 1. cbn [existsb]. rewrite String.eqb_refl. cbn [orb].
    unfold replace_every_match. rewrite fmap_app. cbn.
    rewrite String.eqb_refl. f_equal.
    by apply replace_every_no_match.
Qed.

(** X2.  [upsert] keeps the ids of a collection distinct. *)
Theorem upsert_keeps_ids_distinct (r : RT) (C : list RT) :
  NoDup (id adapter <$> all adapter C) ->
  NoDup (id adapter <$> all adapter (upsert adapter r C)).
Proof.
  cbn [all DefaultRestAdapter]. unfold DefaultRestAdapter_all.
  intros Hdistinct. rewrite upsert_cases.
  destruct (has_id (id adapter) (id adapter r) C) eqn:Hpresent.
  - by rewrite replace_every_ids.
  - rewrite fmap_app. cbn. apply NoDup_app. split_and!; [done | |].
    + intros i Hi Hr. apply list_elem_of_singleton in Hr as ->.
      apply list_elem_of_fmap in Hi as (x & Hid & Hx).
      by apply (proj1 (has_id_absent _ _ _) Hpresent x Hx).
    + apply NoDup_singleton.
Qed.

(** X3.  After [upsert r C] the collection holds [r], and holds no other
    element with the id of [r]: no stale copy is left. *)
Theorem upsert_leaves_no_stale_copy (r : RT) (C : list RT) :
  r ∈ all adapter (upsert adapter r C)
  /\ (forall x, x ∈ all adapter (upsert adapter r C) ->
                id adapter x = id adapter r -> x = r).
Proof.
  cbn [all DefaultRestAdapter]. unfold DefaultRestAdapter_all.
  rewrite upsert_cases.
  destruct (has_id (id adapter) (id adapter r) C) eqn:Hpresent.
  - split; [| intros x; apply elem_of_replace_every].
    apply has_id_present in Hpresent as (y & Hy & Hid).
    unfold replace_every_match. apply list_elem_of_fmap.
    exists y. split; [| done]. apply String.eqb_eq in Hid. by rewrite Hid.
  - split; [apply elem_of_app; right; by left |].
    intros x Hx Hid. apply elem_of_app in Hx as [Hx | Hx].
    + by destruct (proj1 (has_id_absent _ _ _) Hpresent x Hx).
    + by apply list_elem_of_singleton in Hx.
Qed.

(** X4.  [remove i C] is [C] without its elements of id [i]: every such
    element is dropped, also when there are several, and every other
    element is kept, as many times as it occurs and in the order of [C];
    [defaultFilter] reports [removed = true] exactly when the id was
    present. *)
Theorem remove_drops_every_match (i : string) (C : list RT) :
  all adapter (remove adapter i C)
  = List.filter (fun x => negb (String.eqb (id adapter x) i)) (all adapter C)
  /\ (forall x, x ∈ all adapter (remove adapter i C)
                <-> x ∈ all adapter C /\ id adapter x <> i)
  /\ sublist (all adapter (remove adapter i C)) (all adapter C)
  /\ (removed (defaultFilter (id adapter) i C) = true
      <-> id_present (id adapter) i (all adapter C)).
Proof.
  cbn [all DefaultRestAdapter]. unfold DefaultRestAdapter_all.
  rewrite remove_filter, defaultFilter_eq. cbn [removed].
  split_and!.
  - done.
  - intros x. apply elem_of_keep.
  - apply keep_sublist.
  - apply has_id_present.
Qed.

(** X5.  Removing the id of [r] after upserting [r] gives what removing it
    from [C] gives; when the id was not in [C], that is [C] itself. *)
Theorem remove_after_upsert (r : RT) (C : list RT) :
  remove adapter (id adapter r) (upsert adapter r C)
  = remove adapter (id adapter r) C
  /\ ((forall x, x ∈ all adapter C -> id adapter x <> id adapter r) ->
      remove adapter (id adapter r) (upsert adapter r C) = C).
Proof.
  assert (Heq : remove adapter (id adapter r) (upsert adapter r C)
                = remove adapter (id adapter r) C).
  { rewrite !remove_filter, upsert_cases.
    destruct (has_id (id adapter) (id adapter r) C).
    - apply keep_replace_every.
    - rewrite keep_app. cbn. rewrite String.eqb_refl. cbn.
      apply app_nil_r. }
  split; [done |]. intros Habsent. rewrite Heq, remove_filter.
  by apply filter_no_match, has_id_absent.
Qed.

(** X6.  [remove] is idempotent, and upserting [r] after removing its id
    appends [r] to what is left: the resource moves to the end. *)
Theorem upsert_after_remove (r : RT) (i : string) (C : list RT) :
  remove adapter i (remove adapter i C) = remove adapter i C
  /\ upsert adapter r (remove adapter (id adapter r) C)
     = remove adapter (id adapter r) C ++ [r].
Proof.
  split.
  - rewrite !remove_filter. apply filter_no_match, has_id_keep.
  - rewrite upsert_cases, remove_filter. by rewrite has_id_keep.
Qed.

(** X7.  The reports count: the result of [defaultUpsert] is longer than
    the collection by one exactly when [inserted] is reported; and when the
    ids of the collection are distinct, the result of [defaultFilter] is
    shorter by one exactly when [removed] is reported. *)
Theorem reports_count (r : RT) (i : string) (C : list RT) :
  length (upsert_result (defaultUpsert (id adapter) r C))
  = length C + (if inserted (defaultUpsert (id adapter) r C) then 1 else 0)
  /\ (NoDup (id adapter <$> C) ->
      length C
      = length (filter_result (defaultFilter (id adapter) i C))
        + (if removed (defaultFilter (id adapter) i C) then 1 else 0)).
Proof.
  split.
  - rewrite defaultUpsert_eq.
    destruct (has_id (id adapter) (id adapter r) C); cbn.
    + unfold replace_every_match. rewrite length_fmap. lia.
    + by rewrite length_app.
  - intros Hdistinct. rewrite defaultFilter_eq. cbn [removed filter_result].
    by apply keep_length_distinct.
Qed.

End DefaultRestAdapterAlgebra.

(** X8.  The paged adapter of the test suite keeps [count] the number of
    [items] under [upsert]; under [remove] it does so when the ids of the
    items are distinct. *)
Theorem paged_count_invariant (r : Basic.item) (i : string)
  (C : Paged.collection) :
  Paged.count C = Z.of_nat (length (Paged.items C)) ->
  Paged.count (upsert Paged.adapter r C)
  = Z.of_nat (length (Paged.items (upsert Paged.adapter r C)))
  /\ (NoDup (id Paged.adapter <$> Paged.items C) ->
      Paged.count (remove Paged.adapter i C)
      = Z.of_nat (length (Paged.items (remove Paged.adapter i C)))).
Proof.
  intros Hcount. cbn [upsert remove id Paged.adapter Paged.count Paged.items].
  split.
  - rewrite defaultUpsert_eq.
    destruct (has_id Paged.adapter_id (Paged.adapter_id r) (Paged.items C));
      cbn.
    + unfold replace_every_match. rewrite length_fmap. lia.
    + rewrite length_app. cbn. lia.
  - intros Hdistinct. rewrite defaultFilter_eq. cbn [removed filter_result].
    pose proof (keep_length_distinct Paged.adapter_id i (Paged.items C)
                  Hdistinct) as Hlen.
    destruct (has_id Paged.adapter_id i (Paged.items C)); cbn; lia.
Qed.

(** ** The resource cacher: what it writes, where, and what it leaves *)

Section ResourceCacherFrame.
Context {RT CT LP CP UP PUP VT E Key : Type} `{Countable Key}.
Variable client : @RestClient RT CT LP CP UP PUP VT E.
Variable adapter : ResourceAdapter LP CT RT Key.

Local Abbreviation world := (@world RT CT LP CP UP PUP Key _ _).
Local Abbreviation cached := (@cached RT CT).

(** The cache after a resource was propagated from the cache [c]. *)
Local Abbreviation propagated resource c :=
  (<[resourceKey adapter (inl resource) := Res resource]>
     (partial_alter
        (fun collection : option cached =>
           and_then collection (upsert adapter resource))
        (collectionKey adapter None) c)).

(** The cache after the resources [l] were written into the cache [c]. *)
Local Abbreviation written l c :=
  (foldl (fun m x => <[resourceKey adapter (inl x) := Res x]> m) c l).

Lemma written_other (l : list RT) (c : gmap Key cached) (k : Key) :
  (forall r, r ∈ l -> resourceKey adapter (inl r) <> k) ->
  written l c !! k = c !! k.
Proof.
  revert c. induction l as [| x rest IH]; intros c Hother; [done |].
  cbn [foldl]. rewrite IH.
  - apply lookup_insert_ne, Hother. by left.
  - intros r Hr. apply Hother. by right.
Qed.

Lemma written_distinct (l : list RT) (c : gmap Key cached) (r : RT) :
  NoDup ((fun x => resourceKey adapter (inl x)) <$> l) ->
  r ∈ l ->
  written l c !! resourceKey adapter (inl r) = Some (Res r).
Proof.
  revert c. induction l as [| x rest IH]; intros c Hdistinct Hr.
  - by apply elem_of_nil in Hr.
  - rewrite fmap_cons, NoDup_cons in Hdistinct.
    destruct Hdistinct as [Hfresh Hrest]. cbn [foldl].
    apply elem_of_cons in Hr as [-> | Hr]; [| by apply IH].
    rewrite written_other; [apply lookup_insert_eq |].
    intros y Hy Heq. apply Hfresh. rewrite <- Heq.
    by apply (list_elem_of_fmap_2 (fun x => resourceKey adapter (inl x))).
Qed.

(** Two caches that agree outside the keys of [l] are the same cache once
    [l] is written. *)
Lemma written_agree (l : list RT) (c c' : gmap Key cached) :
  (forall k, (forall r, r ∈ l -> resourceKey adapter (inl r) <> k) ->
             c !! k = c' !! k) ->
  written l c = written l c'.
Proof.
  revert c c'. induction l as [| x rest IH]; intros c c' Hagree.
  - apply map_eq. intros k. apply Hagree. intros r Hr.
    by apply elem_of_nil in Hr.
  - cbn [foldl]. apply IH. intros k Hk.
    destruct (decide (resourceKey adapter (inl x) = k)) as [<- | Hne].
    + by rewrite !lookup_insert_eq.
    + rewrite !lookup_insert_ne by done. apply Hagree.
      intros r Hr. apply elem_of_cons in Hr as [-> | Hr]; [done |].
      by apply Hk.
Qed.

(** The runs of the operations whose remote call resolves. *)
Lemma listResources_run (params : option LP) (collection : CT) (w : world) :
  client_list client params = Resolved collection ->
  listResources client adapter params w
  = (Resolved collection,
     {| cache := written (all adapter collection)
                   (<[collectionKey adapter params := Coll collection]>
                      (cache w));
        mutations := mutations w ++
          {| mutation_key := collectionKey adapter params;
             mutation_data := Data (Coll collection);
             revalidate := false |}
          :: ((fun resource =>
                 {| mutation_key := resourceKey adapter (inl resource);
                    mutation_data := Data (Res resource);
                    revalidate := false |}) <$> all adapter collection);
        requests := requests w ++ [ListReq params];
        revalidations := revalidations w |}).
Proof.
  intros Hlist. unfold listResources. rewrite Hlist, then_call_resolved.
  unfold then_ at 1. cbn [mutate]. unfold then_. rewrite for_of_mutate.
  cbn. by rewrite <- app_assoc.
Qed.

Lemma createResource_cache (params : CP) (resource : RT) (w : world) :
  client_create client params = Resolved resource ->
  cache (snd (createResource client adapter params w))
  = propagated resource (cache w).
Proof.
  intros Hr. unfold createResource.
  by rewrite Hr, then_call_resolved, upsert_then_write.
Qed.

Lemma viewResource_cache (i : string) (resource : RT) (w : world) :
  client_view client i = Resolved resource ->
  cache (snd (viewResource client adapter i w))
  = propagated resource (cache w).
Proof.
  intros Hr. unfold viewResource.
  by rewrite Hr, then_call_resolved, upsert_then_write.
Qed.

Lemma updateResource_cache (i : string) (params : UP) (resource : RT)
  (w : world) :
  client_update client i params = Resolved resource ->
  cache (snd (updateResource client adapter i params w))
  = propagated resource (cache w).
Proof.
  intros Hr. unfold updateResource.
  by rewrite Hr, then_call_resolved, upsert_then_write.
Qed.

Lemma partialResource_cache (i : string) (params : PUP) (resource : RT)
  (w : world) :
  client_partial client i params = Resolved resource ->
  cache (snd (partialResource client adapter i params w))
  = propagated resource (cache w).
Proof.
  intros Hr. unfold partialResource.
  by rewrite Hr, then_call_resolved, upsert_then_write.
Qed.

Lemma removeResource_cache (i : string) (response : VT) (w : world) :
  client_remove client i = Resolved response ->
  cache (snd (removeResource client adapter i w))
  = <[resourceKey adapter (inr i) := Null]>
      (partial_alter
         (fun collection : option cached =>
            and_then collection (remove adapter i))
         (collectionKey adapter None) (cache w)).
Proof.
  intros Hr. unfold removeResource.
  rewrite Hr, then_call_resolved. cbv zeta.
  by rewrite remove_then_tombstone.
Qed.

Lemma propagated_other (resource : RT) (c : gmap Key cached) (k : Key) :
  k <> collectionKey adapter None ->
  k <> resourceKey adapter (inl resource) ->
  propagated resource c !! k = c !! k.
Proof.
  intros Hck Hrk.
  rewrite lookup_insert_ne by done. by rewrite lookup_partial_alter_ne.
Qed.


(** X9.  Whatever the remote client answers, every operation of the
    cacher makes exactly one call on it, the call of its own name with the
    arguments it was given, and never asks SWR to revalidate a key. *)
Theorem operations_call_once_and_never_revalidate (w : world) :
  (forall params,
     requests (snd (listResources client adapter params w))
     = requests w ++ [ListReq params]
     /\ revalidations (snd (listResources client adapter params w))
        = revalidations w)
  /\ (forall params,
     requests (snd (createResource client adapter params w))
     = requests w ++ [CreateReq params]
     /\ revalidations (snd (createResource client adapter params w))
        = revalidations w)
  /\ (forall i,
     requests (snd (viewResource client adapter i w))
     = requests w ++ [ViewReq i]
     /\ revalidations (snd (viewResource client adapter i w))
        = revalidations w)
  /\ (forall i params,
     requests (snd (updateResource client adapter i params w))
     = requests w ++ [UpdateReq i params]
     /\ revalidations (snd (updateResource client adapter i params w))
        = revalidations w)
  /\ (forall i params,
     requests (snd (partialResource client adapter i params w))
     = requests w ++ [PartialReq i params]
     /\ revalidations (snd (partialResource client adapter i params w))
        = revalidations w)
  /\ (forall i,
     requests (snd (removeResource client adapter i w))
     = requests w ++ [RemoveReq i]
     /\ revalidations (snd (removeResource client adapter i w))
        = revalidations w).
Proof.
  split_and!.
  - intros params.
    destruct (client_list client params) as [collection | reason] eqn:Hr.
    + by rewrite (listResources_run params collection w Hr).
    + unfold listResources. by rewrite Hr, then_call_rejected.
  - intros params. unfold createResource.
    destruct (client_create client params) as [resource | reason].
    + by rewrite then_call_resolved, upsert_then_write.
    + by rewrite then_call_rejected.
  - intros i. unfold viewResource.
    destruct (client_view client i) as [resource | reason].
    + by rewrite then_call_resolved, upsert_then_write.
    + by rewrite then_call_rejected.
  - intros i params. unfold updateResource.
    destruct (client_update client i params) as [resource | reason].
    + by rewrite then_call_resolved, upsert_then_write.
    + by rewrite then_call_rejected.
  - intros i params. unfold partialResource.
    destruct (client_partial client i params) as [resource | reason].
    + by rewrite then_call_resolved, upsert_then_write.
    + by rewrite then_call_rejected.
  - intros i. unfold removeResource.
    destruct (client_remove client i) as [response | reason].
    + rewrite then_call_resolved. cbv zeta.
      by rewrite remove_then_tombstone.
    + by rewrite then_call_rejected.
Qed.

(** X10.  [listResources] touches only the key of the collection and the
    keys of the resources of the collection: the entry under any other key
    is what it was, whatever the remote client answers. *)
Theorem listResources_frame (params : option LP) (w : world) (k : Key) :
  k <> collectionKey adapter params ->
  (forall collection r,
     client_list client params = Resolved collection ->
     r ∈ all adapter collection -> resourceKey adapter (inl r) <> k) ->
  cache (snd (listResources client adapter params w)) !! k = cache w !! k.
Proof.
  intros Hck Hrk.
  destruct (client_list client params) as [collection | reason] eqn:Hr.
  - rewrite (listResources_run params collection w Hr). cbn [snd cache].
    rewrite written_other by eauto. by apply lookup_insert_ne.
  - unfold listResources. by rewrite Hr, then_call_rejected.
Qed.

(** X11.  When the keys of the resources of the listed collection are
    pairwise distinct and differ from the key of the collection, after
    [listResources] the collection is under its key and every resource of
    the collection is under its own key. *)
Theorem listResources_caches_every_resource (params : option LP)
  (collection : CT) (w : world) :
  client_list client params = Resolved collection ->
  NoDup ((fun r => resourceKey adapter (inl r)) <$> all adapter collection) ->
  (forall r, r ∈ all adapter collection ->
             resourceKey adapter (inl r) <> collectionKey adapter params) ->
  cache (snd (listResources client adapter params w))
    !! collectionKey adapter params = Some (Coll collection)
  /\ (forall r, r ∈ all adapter collection ->
        cache (snd (listResources client adapter params w))
          !! resourceKey adapter (inl r) = Some (Res r)).
Proof.
  intros Hr Hdistinct Hck.
  rewrite (listResources_run params collection w Hr). cbn [snd cache].
  split.
  - rewrite written_other by done. apply lookup_insert_eq.
  - intros r Hin. by apply written_distinct.
Qed.

(** X12.  Listing twice with the same answer leaves the cache that listing
    once leaves. *)
Theorem listResources_twice (params : option LP) (collection : CT)
  (w : world) :
  client_list client params = Resolved collection ->
  cache (snd (listResources client adapter params
                (snd (listResources client adapter params w))))
  = cache (snd (listResources client adapter params w)).
Proof.
  intros Hr. rewrite !(listResources_run params collection _ Hr).
  cbn [snd cache]. apply written_agree. intros k Hk.
  destruct (decide (collectionKey adapter params = k)) as [<- | Hne].
  - by rewrite !lookup_insert_eq.
  - rewrite !lookup_insert_ne by done. rewrite written_other by done.
    by apply lookup_insert_ne.
Qed.

(** X13.  [createResource], [viewResource], [updateResource],
    [partialResource] and [removeResource] touch only the entry under
    [collectionKey()] and the entry of their resource, whatever the remote
    client answers: every other entry, the entry of a collection listed
    with parameters among them, is what it was. *)
Theorem resource_operations_frame (w : world) (k : Key) :
  k <> collectionKey adapter None ->
  (forall params,
     (forall resource, client_create client params = Resolved resource ->
                       k <> resourceKey adapter (inl resource)) ->
     cache (snd (createResource client adapter params w)) !! k = cache w !! k)
  /\ (forall i,
     (forall resource, client_view client i = Resolved resource ->
                       k <> resourceKey adapter (inl resource)) ->
     cache (snd (viewResource client adapter i w)) !! k = cache w !! k)
  /\ (forall i params,
     (forall resource, client_update client i params = Resolved resource ->
                       k <> resourceKey adapter (inl resource)) ->
     cache (snd (updateResource client adapter i params w)) !! k
     = cache w !! k)
  /\ (forall i params,
     (forall resource, client_partial client i params = Resolved resource ->
                       k <> resourceKey adapter (inl resource)) ->
     cache (snd (partialResource client adapter i params w)) !! k
     = cache w !! k)
  /\ (forall i,
     k <> resourceKey adapter (inr i) ->
     cache (snd (removeResource client adapter i w)) !! k = cache w !! k).
Proof.
  intros Hck. split_and!.
  - intros params Hrk.
    destruct (client_create client params) as [resource | reason] eqn:Hr.
    + rewrite (createResource_cache params resource w Hr).
      apply propagated_other; eauto.
    + unfold createResource. by rewrite Hr, then_call_rejected.
  - intros i Hrk.
    destruct (client_view client i) as [resource | reason] eqn:Hr.
    + rewrite (viewResource_cache i resource w Hr).
      apply propagated_other; eauto.
    + unfold viewResource. by rewrite Hr, then_call_rejected.
  - intros i params Hrk.
    destruct (client_update client i params) as [resource | reason] eqn:Hr.
    + rewrite (updateResource_cache i params resource w Hr).
      apply propagated_other; eauto.
    + unfold updateResource. by rewrite Hr, then_call_rejected.
  - intros i params Hrk.
    destruct (client_partial client i params) as [resource | reason] eqn:Hr.
    + rewrite (partialResource_cache i params resource w Hr).
      apply propagated_other; eauto.
    + unfold partialResource. by rewrite Hr, then_call_rejected.
  - intros i Hrk.
    destruct (client_remove client i) as [response | reason] eqn:Hr.
    + rewrite (removeResource_cache i response w Hr).
      rewrite lookup_insert_ne by done. by rewrite lookup_partial_alter_ne.
    + unfold removeResource. by rewrite Hr, then_call_rejected.
Qed.


(** X15.  When the entry under [collectionKey()] is [null], the updater
    returns [null]: a resolved [createResource] or [removeResource] leaves
    that entry [null], no collection is made up, and only the entry of the
    resource is written. *)
Theorem null_collection_stays_null (w : world) :
  cache w !! collectionKey adapter None = Some Null ->
  (forall params resource,
     client_create client params = Resolved resource ->
     cache (snd (createResource client adapter params w))
     = <[resourceKey adapter (inl resource) := Res resource]> (cache w))
  /\ (forall i response,
     client_remove client i = Resolved response ->
     cache (snd (removeResource client adapter i w))
     = <[resourceKey adapter (inr i) := Null]> (cache w)).
Proof.
  intros Hnull. split.
  - intros params resource Hr.
    rewrite (createResource_cache params resource w Hr).
    rewrite partial_alter_id; [done |]. by rewrite Hnull.
  - intros i response Hr.
    rewrite (removeResource_cache i response w Hr).
    rewrite partial_alter_id; [done |]. by rewrite Hnull.
Qed.

Lemma then_settle_resolved {A B} (a : A) (k : A -> async E world B)
  (w : world) :
  then_ (settle (Resolved a)) k w = k a w.
Proof. reflexivity. Qed.

(** X16.  The [list] of the collection-scoped hook is bound to the
    parameters of the hook: it calls the remote [list] with them, and writes
    the collection under the key the hook subscribes to. *)
Theorem collection_hook_list_refreshes_subscription (params : option LP)
  (collection : CT) (w : world) :
  client_list client params = Resolved collection ->
  (forall r, r ∈ all adapter collection ->
             resourceKey adapter (inl r) <> collectionKey adapter params) ->
  let hook := useSWRCollection client adapter params in
  let out := collection_list (collection_api_of hook) w in
  fst out = Resolved collection
  /\ requests (snd out) = requests w ++ [ListReq params]
  /\ exists k, collection_response hook = Some k
               /\ cache (snd out) !! k = Some (Coll collection).
Proof.
  intros Hr Hck hook out. subst hook out.
  cbn [useSWRCollection collection_api_of collection_list
       collection_response].
  rewrite (listResources_run params collection w Hr).
  cbn [fst snd cache requests]. split_and!; [done | done |].
  eexists. split; [done |].
  rewrite written_other by done. apply lookup_insert_eq.
Qed.

(** X17.  The resource-scoped hook bound to a non-empty id [s] subscribes
    to [resourceKey s]; its [remove], once the remote call resolved, leaves
    [null] under that very key; and its [view] leaves the viewed resource
    under that key when the key of the resource is the key of [s]. *)
Theorem resource_hook_writes_its_subscription (s : string) (w : world) :
  s <> "" ->
  let hook := useSWRResource client adapter (Some s) in
  resource_response hook = Some (resourceKey adapter (inr s))
  /\ (forall response,
        client_remove client s = Resolved response ->
        fst (resource_remove (resource_api_of hook) w) = Resolved response
        /\ cache (snd (resource_remove (resource_api_of hook) w))
             !! resourceKey adapter (inr s) = Some Null)
  /\ (forall resource,
        client_view client s = Resolved resource ->
        resourceKey adapter (inl resource) = resourceKey adapter (inr s) ->
        fst (resource_view (resource_api_of hook) w) = Resolved resource
        /\ cache (snd (resource_view (resource_api_of hook) w))
             !! resourceKey adapter (inr s) = Some (Res resource)).
Proof.
  intros Hs hook. subst hook.
  cbn [useSWRResource resource_api_of resource_response resource_remove
       resource_view].
  pose proof (assertId_returns (E := E) s Hs) as Hid.
  apply String.eqb_neq in Hs as Hsb.
  split_and!.
  - unfold not_id. by rewrite Hsb.
  - intros response Hr. rewrite Hid, !then_settle_resolved.
    unfold removeResource. rewrite Hr, !then_call_resolved. cbv zeta.
    rewrite !remove_then_tombstone. cbn [fst snd cache].
    split; [done | apply lookup_insert_eq].
  - intros resource Hr Hkey. rewrite Hid, !then_settle_resolved.
    unfold viewResource. rewrite Hr, !then_call_resolved, !upsert_then_write.
    cbn [fst snd cache]. split; [done |].
    rewrite <- Hkey. apply lookup_insert_eq.
Qed.

End ResourceCacherFrame.

(** ** The cacher over the default adapter *)

Section DefaultAdapterCacher.
Context {RT LP RK CP UP PUP VT E : Type} `{Countable LP}.
Variable get : RT -> RK -> string.
Variables (cacheKey : string) (idKey : RK).
Variable client : @RestClient RT (list RT) LP CP UP PUP VT E.

Local Abbreviation adapter :=
  (DefaultRestAdapter (LP := LP) get cacheKey idKey).

(** X18.  [viewResource] caches the resource it was answered under the id
    of that resource, not under the id it asked for: when the two differ,
    the entry of the id asked for is what it was. *)
Theorem view_caches_under_the_answered_id (i : string) (resource : RT)
  (w : world) :
  client_view client i = Resolved resource ->
  id adapter resource <> i ->
  cache (snd (viewResource client adapter i w))
    !! resourceKey adapter (inr (id adapter resource))
  = Some (Res resource)
  /\ cache (snd (viewResource client adapter i w))
       !! resourceKey adapter (inr i)
     = cache w !! resourceKey adapter (inr i).
Proof.
  intros Hr Hid. rewrite (viewResource_cache client adapter i resource w Hr).
  split.
  - apply lookup_insert_eq.
  - rewrite lookup_insert_ne.
    + by rewrite lookup_partial_alter_ne.
    + intros [= Heq]. by apply Hid.
Qed.

End DefaultAdapterCacher.

(** ** The default client *)

Section DefaultRestClientFacts.
Context {RT CT LP CP UP PUP E J : Type}.
Context `{Stringify CP} `{Stringify UP} `{Stringify PUP}.
Variable fetch : string -> option RequestInit -> outcome E (Response E J).
Variable URLSearchParams_toString : LP -> string.
Variable asCT : J -> CT.
Variable asRT : J -> RT.
Variable collectionUrl : string.

Local Abbreviation list_ :=
  (DefaultRestClient_list (CT := CT) fetch URLSearchParams_toString asCT
     collectionUrl).
Local Abbreviation create_ :=
  (DefaultRestClient_create (CP := CP) fetch asRT collectionUrl).
Local Abbreviation view_ := (DefaultRestClient_view fetch asRT collectionUrl).
Local Abbreviation update_ :=
  (DefaultRestClient_update (UP := UP) fetch asRT collectionUrl).
Local Abbreviation partial_ :=
  (DefaultRestClient_partial (PUP := PUP) fetch asRT collectionUrl).
Local Abbreviation remove_ := (DefaultRestClient_remove fetch collectionUrl).

Local Abbreviation resource_url i := (collectionUrl ++ "/" ++ i)%string.
Local Abbreviation sending m params :=
  (Some {| method := m; headers := json_headers;
           body := Some (JSON_stringify params) |}).
Local Abbreviation deleting :=
  (Some {| method := "DELETE"; headers := []; body := None |}).

(** A method that fetches once, checks the status and reads the body. *)
Lemma read_run {A} (input : string) (init : option RequestInit)
  (expected : nat) (as_ : J -> A) (log : network) :
  (response <- await fetch_call fetch input init ;;
   if negb (Nat.eqb (status response) expected) then throw_Error
   else
     body <- await settle (json response) ;;
     resolve (as_ body)) log
  = (match fetch input init with
     | Rejected reason => Rejected reason
     | Resolved response =>
         if Nat.eqb (status response) expected
         then match json response with
              | Resolved body => Resolved (as_ body)
              | Rejected reason => Rejected reason
              end
         else Rejected (Error "")
     end,
     log ++ [(input, init)]).
Proof.
  unfold then_ at 1, fetch_call.
  destruct (fetch input init) as [response | reason]; [| done].
  destruct (Nat.eqb (status response) expected); cbn [negb]; [| done].
  unfold then_, settle, resolve. by destruct (json response).
Qed.

Lemma remove_run (i : string) (log : network) :
  remove_ i log
  = (match fetch (resource_url i) deleting with
     | Rejected reason => Rejected reason
     | Resolved response =>
         if Nat.eqb (status response) 200 then Resolved tt
         else Rejected (Error "")
     end,
     log ++ [(resource_url i, deleting)]).
Proof.
  unfold DefaultRestClient_remove, then_, fetch_call.
  destruct (fetch _ _) as [response | reason]; [| done].
  by destruct (Nat.eqb (status response) 200).
Qed.

(** X19.  Whatever the server answers, a method of the default client
    calls [fetch] exactly once: [list] on the collection url, followed by
    [?] and the parameters when parameters are given; [create] on the
    collection url with a POST; the others on the url of the resource,
    [update] with a PUT, [partial] with a PATCH, [remove] with a DELETE
    that has no body. *)
Theorem default_client_fetches_once (log : network) :
  snd (list_ None log) = log ++ [(collectionUrl, None)]
  /\ (forall params,
        snd (list_ (Some params) log)
        = log ++ [((collectionUrl ++ "?" ++ URLSearchParams_toString params)
                     %string, None)])
  /\ (forall params,
        snd (create_ params log)
        = log ++ [(collectionUrl, sending "POST" params)])
  /\ (forall i, snd (view_ i log) = log ++ [(resource_url i, None)])
  /\ (forall i params,
        snd (update_ i params log)
        = log ++ [(resource_url i, sending "PUT" params)])
  /\ (forall i params,
        snd (partial_ i params log)
        = log ++ [(resource_url i, sending "PATCH" params)])
  /\ (forall i, snd (remove_ i log) = log ++ [(resource_url i, deleting)]).
Proof.
  split_and!; intros;
    unfold DefaultRestClient_list, DefaultRestClient_create,
      DefaultRestClient_view, DefaultRestClient_update,
      DefaultRestClient_partial;
    cbv zeta; rewrite ?read_run, ?remove_run; done.
Qed.

Local Abbreviation list_url params :=
  (match params with
   | Some p => (collectionUrl ++ "?" ++ URLSearchParams_toString p)%string
   | None => collectionUrl
   end).

Lemma list_run (params : option LP) (log : network) :
  list_ params log
  = (match fetch (list_url params) None with
     | Rejected reason => Rejected reason
     | Resolved response =>
         if Nat.eqb (status response) 200
         then match json response with
              | Resolved body => Resolved (asCT body)
              | Rejected reason => Rejected reason
              end
         else Rejected (Error "")
     end,
     log ++ [(list_url params, None)]).
Proof. unfold DefaultRestClient_list. cbv zeta. by rewrite read_run. Qed.

(** X20.  A response with another status than 200, or than 201 for
    [create], makes the method reject with an [Error] whose message is
    empty, whatever the body is: a [create] answered 200 and a [remove]
    answered 204 are rejected. *)
Theorem default_client_rejects_other_status (response : Response E J) :
  (forall params,
     fetch (list_url params) None = Resolved response ->
     status response <> 200 ->
     settled (list_ params) = Rejected (Error ""))
  /\ (forall params,
     fetch collectionUrl (sending "POST" params) = Resolved response ->
     status response <> 201 ->
     settled (create_ params) = Rejected (Error ""))
  /\ (forall i,
     fetch (resource_url i) None = Resolved response ->
     status response <> 200 ->
     settled (view_ i) = Rejected (Error ""))
  /\ (forall i params,
     fetch (resource_url i) (sending "PUT" params) = Resolved response ->
     status response <> 200 ->
     settled (update_ i params) = Rejected (Error ""))
  /\ (forall i params,
     fetch (resource_url i) (sending "PATCH" params) = Resolved response ->
     status response <> 200 ->
     settled (partial_ i params) = Rejected (Error ""))
  /\ (forall i,
     fetch (resource_url i) deleting = Resolved response ->
     status response <> 200 ->
     settled (remove_ i) = Rejected (Error "")).
Proof.
  split_and!; intros;
    unfold settled, DefaultRestClient_create, DefaultRestClient_view,
      DefaultRestClient_update, DefaultRestClient_partial;
    rewrite ?list_run, ?read_run, ?remove_run; cbn [fst];
    match goal with Hf : fetch _ _ = _ |- _ => rewrite Hf end;
    match goal with Hs : status _ <> _ |- _ =>
      apply Nat.eqb_neq in Hs; rewrite Hs end;
    done.
Qed.

(** X21.  A method that returns a body resolves exactly when [fetch]
    resolved with the status 200, or 201 for [create], and the body was
    parsed; it resolves with that body. *)
Theorem default_client_resolves_iff :
  (forall params c,
     settled (list_ params) = Resolved c
     <-> exists response body,
           fetch (list_url params) None = Resolved response
           /\ status response = 200
           /\ json response = Resolved body /\ c = asCT body)
  /\ (forall params r,
     settled (create_ params) = Resolved r
     <-> exists response body,
           fetch collectionUrl (sending "POST" params) = Resolved response
           /\ status response = 201
           /\ json response = Resolved body /\ r = asRT body)
  /\ (forall i r,
     settled (view_ i) = Resolved r
     <-> exists response body,
           fetch (resource_url i) None = Resolved response
           /\ status response = 200
           /\ json response = Resolved body /\ r = asRT body)
  /\ (forall i params r,
     settled (update_ i params) = Resolved r
     <-> exists response body,
           fetch (resource_url i) (sending "PUT" params) = Resolved response
           /\ status response = 200
           /\ json response = Resolved body /\ r = asRT body)
  /\ (forall i params r,
     settled (partial_ i params) = Resolved r
     <-> exists response body,
           fetch (resource_url i) (sending "PATCH" params) = Resolved response
           /\ status response = 200
           /\ json response = Resolved body /\ r = asRT body).
Proof.
  assert (Hread : forall A (o : outcome E (Response E J)) expected
                    (as_ : J -> A) (a : A),
            match o with
            | Rejected reason => Rejected reason
            | Resolved response =>
                if Nat.eqb (status response) expected
                then match json response with
                     | Resolved body => Resolved (as_ body)
                     | Rejected reason => Rejected reason
                     end
                else Rejected (Error "")
            end = Resolved a
            <-> exists response body,
                  o = Resolved response /\ status response = expected
                  /\ json response = Resolved body /\ a = as_ body).
  { intros A o expected as_ a. split.
    - destruct o as [response | reason]; [| done].
      destruct (Nat.eqb_spec (status response) expected); [| done].
      destruct (json response) as [body | reason] eqn:Hj; [| done].
      intros [= <-]. by exists response, body.
    - intros (response & body & -> & <- & Hj & ->).
      by rewrite Nat.eqb_refl, Hj. }
  split_and!; intros;
    unfold settled, DefaultRestClient_create, DefaultRestClient_view,
      DefaultRestClient_update, DefaultRestClient_partial;
    rewrite ?list_run, ?read_run; cbn [fst]; apply Hread.
Qed.

(** X22.  [remove] never reads the body: it resolves exactly when [fetch]
    resolved with the status 200, also when the body cannot be parsed. *)
Theorem default_client_remove_ignores_body (i : string) :
  settled (remove_ i) = Resolved tt
  <-> exists response,
        fetch (resource_url i) deleting = Resolved response
        /\ status response = 200.
Proof.
  unfold settled. rewrite remove_run. cbn [fst]. split.
  - destruct (fetch _ _) as [response | reason]; [| done].
    destruct (Nat.eqb_spec (status response) 200); [| done].
    intros _. by exists response.
  - intros (response & -> & ->). done.
Qed.

(** X23.  A rejection of [fetch] is what the method rejects with; and when
    the status is the expected one, a rejection of [json()] is what a
    method that returns a body rejects with. *)
Theorem default_client_propagates_rejections (reason : thrown E) :
  ((forall params,
      fetch (list_url params) None = Rejected reason ->
      settled (list_ params) = Rejected reason)
   /\ (forall params,
      fetch collectionUrl (sending "POST" params) = Rejected reason ->
      settled (create_ params) = Rejected reason)
   /\ (forall i,
      fetch (resource_url i) None = Rejected reason ->
      settled (view_ i) = Rejected reason)
   /\ (forall i params,
      fetch (resource_url i) (sending "PUT" params) = Rejected reason ->
      settled (update_ i params) = Rejected reason)
   /\ (forall i params,
      fetch (resource_url i) (sending "PATCH" params) = Rejected reason ->
      settled (partial_ i params) = Rejected reason)
   /\ (forall i,
      fetch (resource_url i) deleting = Rejected reason ->
      settled (remove_ i) = Rejected reason))
  /\ (forall response,
      json response = Rejected reason ->
      (forall params,
         fetch (list_url params) None = Resolved response ->
         status response = 200 ->
         settled (list_ params) = Rejected reason)
      /\ (forall params,
         fetch collectionUrl (sending "POST" params) = Resolved response ->
         status response = 201 ->
         settled (create_ params) = Rejected reason)
      /\ (forall i,
         fetch (resource_url i) None = Resolved response ->
         status response = 200 ->
         settled (view_ i) = Rejected reason)
      /\ (forall i params,
         fetch (resource_url i) (sending "PUT" params) = Resolved response ->
         status response = 200 ->
         settled (update_ i params) = Rejected reason)
      /\ (forall i params,
         fetch (resource_url i) (sending "PATCH" params) = Resolved response ->
         status response = 200 ->
         settled (partial_ i params) = Rejected reason)).
Proof.
  split; [| intros response Hj]; split_and!; intros;
    unfold settled, DefaultRestClient_create, DefaultRestClient_view,
      DefaultRestClient_update, DefaultRestClient_partial;
    rewrite ?list_run, ?read_run, ?remove_run; cbn [fst];
    match goal with Hf : fetch _ _ = _ |- _ => rewrite Hf end;
    try done;
    match goal with Hs : status _ = _ |- _ => rewrite Hs end;
    by rewrite Nat.eqb_refl, Hj.
Qed.

(** ** The hooks over the default client *)

Section DefaultStack.
Context {Key : Type} `{Countable Key}.
Variable adapter : ResourceAdapter LP CT RT Key.

Local Abbreviation hooks :=
  (createRESTfulSWR adapter
     (createDefaultUseRestClient (CP := CP) (UP := UP) (PUP := PUP)
        fetch URLSearchParams_toString asCT asRT collectionUrl)).

(** X24.  With the default client, the [remove] of the resource-scoped
    hook bound to a non-empty id leaves [null] under the key of the id when
    the server answers the DELETE with the status 200; with any other
    status it rejects with an [Error] whose message is empty, and the cache
    and the history of writes are what they were. *)
Theorem default_stack_remove (s : string) (response : Response E J)
  (w : world) :
  s <> "" ->
  fetch (resource_url s) deleting = Resolved response ->
  let out := resource_remove (resource_api_of (snd hooks (Some s))) w in
  (status response = 200 ->
   fst out = Resolved tt
   /\ cache (snd out) !! resourceKey adapter (inr s) = Some Null)
  /\ (status response <> 200 ->
      fst out = Rejected (Error "")
      /\ cache (snd out) = cache w
      /\ mutations (snd out) = mutations w).
Proof.
  intros Hs Hfetch out. subst out.
  cbn [snd createRESTfulSWR createDefaultUseRestClient useSWRResource
       resource_api_of resource_remove].
  rewrite (assertId_returns s Hs), !then_settle_resolved.
  unfold removeResource, createDefaultUseRestClient. cbv zeta.
  cbn [client_remove DefaultRestClient]. unfold settled.
  rewrite remove_run, Hfetch. cbn [fst]. split.
  - intros Hst. rewrite Hst, Nat.eqb_refl.
    rewrite !then_call_resolved. cbv zeta. rewrite !remove_then_tombstone.
    cbn [fst snd cache]. split; [done | apply lookup_insert_eq].
  - intros Hst. apply Nat.eqb_neq in Hst. rewrite Hst.
    by rewrite !then_call_rejected.
Qed.

(** X25.  With the default client, the [create] of the collection-scoped
    hook caches the created resource when the server answers the POST with
    the status 201 and a body; with any other status, 200 among them, it
    rejects with an [Error] whose message is empty, and the cache and the
    history of writes are what they were. *)
Theorem default_stack_create (params : CP) (response : Response E J)
  (list_params : option LP) (w : world) :
  fetch collectionUrl (sending "POST" params) = Resolved response ->
  let out := collection_create
               (collection_api_of (fst hooks list_params)) params w in
  (forall body,
     status response = 201 -> json response = Resolved body ->
     fst out = Resolved (asRT body)
     /\ cache (snd out) !! resourceKey adapter (inl (asRT body))
        = Some (Res (asRT body)))
  /\ (status response <> 201 ->
      fst out = Rejected (Error "")
      /\ cache (snd out) = cache w
      /\ mutations (snd out) = mutations w).
Proof.
  intros Hfetch out. subst out.
  cbn [fst createRESTfulSWR createDefaultUseRestClient useSWRCollection
       collection_api_of collection_create].
  unfold createResource, createDefaultUseRestClient. cbv zeta.
  cbn [client_create DefaultRestClient]. unfold settled.
  unfold DefaultRestClient_create. rewrite read_run, Hfetch. cbn [fst].
  split.
  - intros body Hst Hj. rewrite Hst, Nat.eqb_refl, Hj.
    rewrite !then_call_resolved, !upsert_then_write.
    cbn [fst snd cache]. split; [done | apply lookup_insert_eq].
  - intros Hst. apply Nat.eqb_neq in Hst. rewrite Hst.
    by rewrite !then_call_rejected.
Qed.

End DefaultStack.

End DefaultRestClientFacts.

(** ** The further properties at the examples of the test suite *)

Lemma upsert_keeps_ids_distinct_witness :
  NoDup (id Basic.adapter <$> [Basic.item1; Basic.item2])
  /\ NoDup (id Basic.adapter
              <$> upsert Basic.adapter Basic.item1'
                    [Basic.item1; Basic.item2]).
Proof.
  assert (Hd : NoDup (id Basic.adapter
                        <$> all Basic.adapter [Basic.item1; Basic.item2])).
  { apply (bool_decide_unpack _). reflexivity. }
  split; [exact Hd |].
  exact (upsert_keeps_ids_distinct (LP := nat) Basic.item_get "/collection"
           Basic.ID Basic.item1' [Basic.item1; Basic.item2] Hd).
Defined.

Lemma upsert_leaves_no_stale_copy_witness :
  Basic.item1' ∈ upsert Basic.adapter Basic.item1'
                   [Basic.item1; Basic.item2; Basic.item1]
  /\ Basic.item1 ∉ upsert Basic.adapter Basic.item1'
                     [Basic.item1; Basic.item2; Basic.item1].
Proof.
  destruct (upsert_leaves_no_stale_copy (LP := nat) Basic.item_get
              "/collection" Basic.ID Basic.item1'
              [Basic.item1; Basic.item2; Basic.item1]) as [Hin Hstale].
  split; [exact Hin |].
  intros Hold. specialize (Hstale Basic.item1 Hold eq_refl). discriminate.
Defined.

Lemma remove_drops_every_match_witness :
  remove Basic.adapter "1"
    [Basic.item1; Basic.item2; Basic.item1'; Basic.item2]
  = [Basic.item2; Basic.item2]
  /\ Basic.item2 ∈ remove Basic.adapter "1"
                     [Basic.item1; Basic.item2; Basic.item1'; Basic.item2]
  /\ Basic.item1' ∉ remove Basic.adapter "1"
                      [Basic.item1; Basic.item2; Basic.item1'; Basic.item2].
Proof.
  destruct (remove_drops_every_match (LP := nat) Basic.item_get
              "/collection" Basic.ID "1"
              [Basic.item1; Basic.item2; Basic.item1'; Basic.item2])
    as (Heq & Hin & _ & _).
  split; [exact Heq |]. split.
  - apply (proj2 (Hin Basic.item2)). split; [| discriminate].
    right. left.
  - intros Hgone. apply (proj1 (Hin Basic.item1')) in Hgone as [_ Hid].
    by apply Hid.
Defined.

Lemma remove_after_upsert_witness :
  (forall x, x ∈ [Basic.item1] -> id Basic.adapter x <> "2")
  /\ remove Basic.adapter "2" (upsert Basic.adapter Basic.item2 [Basic.item1])
     = [Basic.item1].
Proof.
  assert (Ha : forall x, x ∈ all Basic.adapter [Basic.item1] ->
                 id Basic.adapter x <> id Basic.adapter Basic.item2).
  { exact (proj1 (has_id_absent (id Basic.adapter) "2" [Basic.item1])
             eq_refl). }
  split; [exact Ha |].
  exact (proj2 (remove_after_upsert (LP := nat) Basic.item_get "/collection"
                  Basic.ID Basic.item2 [Basic.item1]) Ha).
Defined.

Lemma reports_count_witness :
  NoDup (id Basic.adapter <$> [Basic.item1; Basic.item2])
  /\ length [Basic.item1; Basic.item2]
     = length (filter_result
                 (defaultFilter (id Basic.adapter) "1"
                    [Basic.item1; Basic.item2]))
       + (if removed (defaultFilter (id Basic.adapter) "1"
                        [Basic.item1; Basic.item2])
          then 1 else 0).
Proof.
  assert (Hd : NoDup (id Basic.adapter <$> [Basic.item1; Basic.item2])).
  { apply (bool_decide_unpack _). reflexivity. }
  split; [exact Hd |].
  exact (proj2 (reports_count (LP := nat) Basic.item_get "/collection"
                  Basic.ID Basic.item1 "1" [Basic.item1; Basic.item2]) Hd).
Defined.

Lemma paged_count_invariant_witness :
  Paged.count BasicServer.page1
  = Z.of_nat (length (Paged.items BasicServer.page1))
  /\ Paged.count (upsert Paged.adapter Basic.item2 BasicServer.page1) = 2%Z
  /\ Paged.count (remove Paged.adapter "1" BasicServer.page1) = 0%Z.
Proof.
  destruct (paged_count_invariant Basic.item2 "1" BasicServer.page1 eq_refl)
    as [Hup Hrm].
  split; [reflexivity |]. split; [exact Hup |].
  apply Hrm. apply (bool_decide_unpack _). reflexivity.
Defined.

Lemma listResources_frame_witness :
  cache (snd (listResources Basic.resolving Basic.adapter None Basic.world1))
    !! collectionKey Basic.adapter (Some 1)
  = cache Basic.world1 !! collectionKey Basic.adapter (Some 1).
Proof.
  apply (listResources_frame Basic.resolving Basic.adapter None Basic.world1).
  - discriminate.
  - intros collection r _ _. discriminate.
Defined.

Lemma listResources_caches_every_resource_witness :
  client_list Basic.resolving None = Resolved [Basic.item1; Basic.item2]
  /\ cache (snd (listResources Basic.resolving Basic.adapter None
                   Basic.world0))
       !! resourceKey Basic.adapter (inl Basic.item2)
     = Some (Res Basic.item2).
Proof.
  split; [reflexivity |].
  refine (proj2 (listResources_caches_every_resource Basic.resolving
                   Basic.adapter None [Basic.item1; Basic.item2]
                   Basic.world0 eq_refl _ _) Basic.item2 _).
  - apply (bool_decide_unpack _). reflexivity.
  - intros r _. discriminate.
  - right. left.
Defined.

Lemma listResources_twice_witness :
  client_list Basic.resolving None = Resolved [Basic.item1; Basic.item2]
  /\ cache (snd (listResources Basic.resolving Basic.adapter None
                   (snd (listResources Basic.resolving Basic.adapter None
                           Basic.world1))))
     = cache (snd (listResources Basic.resolving Basic.adapter None
                     Basic.world1)).
Proof.
  split; [reflexivity |].
  exact (listResources_twice Basic.resolving Basic.adapter None
           [Basic.item1; Basic.item2] Basic.world1 eq_refl).
Defined.

Lemma resource_operations_frame_witness :
  collectionKey Basic.adapter (Some 1) <> collectionKey Basic.adapter None
  /\ cache (snd (updateResource Basic.resolving Basic.adapter "1" false
                   Basic.world1))
       !! collectionKey Basic.adapter (Some 1)
     = cache Basic.world1 !! collectionKey Basic.adapter (Some 1).
Proof.
  assert (Hck : collectionKey Basic.adapter (Some 1)
                <> collectionKey Basic.adapter None) by discriminate.
  split; [exact Hck |].
  destruct (resource_operations_frame Basic.resolving Basic.adapter
              Basic.world1 (collectionKey Basic.adapter (Some 1)) Hck)
    as (_ & _ & Hupdate & _).
  apply Hupdate. intros resource _. discriminate.
Defined.


Lemma null_collection_stays_null_witness :
  cache BasicServer.world_null !! collectionKey Basic.adapter None
  = Some Null
  /\ cache (snd (createResource Basic.resolving Basic.adapter true
                   BasicServer.world_null))
     = <[resourceKey Basic.adapter (inl Basic.item1') := Res Basic.item1']>
         (cache BasicServer.world_null).
Proof.
  split; [reflexivity |].
  exact (proj1 (null_collection_stays_null Basic.resolving Basic.adapter
                  BasicServer.world_null eq_refl)
           true Basic.item1' eq_refl).
Defined.

Lemma collection_hook_list_refreshes_subscription_witness :
  client_list Basic.resolving (Some 1) = Resolved [Basic.item1; Basic.item2]
  /\ exists k,
       collection_response
         (useSWRCollection Basic.resolving Basic.adapter (Some 1)) = Some k
       /\ cache (snd (collection_list
                        (collection_api_of
                           (useSWRCollection Basic.resolving Basic.adapter
                              (Some 1)))
                        Basic.world0))
            !! k = Some (Coll [Basic.item1; Basic.item2]).
Proof.
  split; [reflexivity |].
  refine (proj2 (proj2 (collection_hook_list_refreshes_subscription
                          Basic.resolving Basic.adapter (Some 1)
                          [Basic.item1; Basic.item2] Basic.world0
                          eq_refl _))).
  intros r _. discriminate.
Defined.

Lemma resource_hook_writes_its_subscription_witness :
  "1" <> ""
  /\ cache (snd (resource_remove
                   (resource_api_of
                      (useSWRResource Basic.resolving Basic.adapter
                         (Some "1")))
                   Basic.world1))
       !! resourceKey Basic.adapter (inr "1") = Some Null
  /\ cache (snd (resource_view
                   (resource_api_of
                      (useSWRResource Basic.resolving Basic.adapter
                         (Some "1")))
                   Basic.world1))
       !! resourceKey Basic.adapter (inr "1") = Some (Res Basic.item1').
Proof.
  assert (Hs : "1" <> "") by discriminate.
  destruct (resource_hook_writes_its_subscription Basic.resolving
              Basic.adapter "1" Basic.world1 Hs) as (_ & Hremove & Hview).
  split; [exact Hs |]. split.
  - exact (proj2 (Hremove tt eq_refl)).
  - exact (proj2 (Hview Basic.item1' eq_refl eq_refl)).
Defined.

Lemma view_caches_under_the_answered_id_witness :
  client_view BasicServer.answering_item2 "1" = Resolved Basic.item2
  /\ id Basic.adapter Basic.item2 <> "1"
  /\ cache (snd (viewResource BasicServer.answering_item2 Basic.adapter "1"
                   Basic.world0))
       !! resourceKey Basic.adapter (inr "2") = Some (Res Basic.item2)
  /\ cache (snd (viewResource BasicServer.answering_item2 Basic.adapter "1"
                   Basic.world0))
       !! resourceKey Basic.adapter (inr "1") = None.
Proof.
  assert (Hid : id Basic.adapter Basic.item2 <> "1") by discriminate.
  split; [reflexivity |]. split; [exact Hid |].
  exact (view_caches_under_the_answered_id Basic.item_get "/collection"
           Basic.ID BasicServer.answering_item2 "1" Basic.item2 Basic.world0
           eq_refl Hid).
Defined.

Lemma default_client_rejects_other_status_witness :
  settled (DefaultRestClient_remove
             (BasicServer.answering 204 (BasicServer.JResource Basic.item1))
             "/collection" "1")
  = Rejected (Error "")
  /\ settled (DefaultRestClient_create
                (BasicServer.answering 200
                   (BasicServer.JResource Basic.item1))
                BasicServer.asRT "/collection" true)
     = Rejected (Error "").
Proof.
  split.
  - destruct (default_client_rejects_other_status
                (CT := list Basic.item) (LP := nat) (CP := bool) (UP := bool)
                (PUP := option bool)
                (BasicServer.answering 204
                   (BasicServer.JResource Basic.item1))
                BasicServer.URLSearchParams_toString BasicServer.asCT
                BasicServer.asRT "/collection"
                {| status := 204;
                   json := Resolved (BasicServer.JResource Basic.item1) |})
      as (_ & _ & _ & _ & _ & Hremove).
    apply (Hremove "1" eq_refl). discriminate.
  - destruct (default_client_rejects_other_status
                (CT := list Basic.item) (LP := nat) (CP := bool) (UP := bool)
                (PUP := option bool)
                (BasicServer.answering 200
                   (BasicServer.JResource Basic.item1))
                BasicServer.URLSearchParams_toString BasicServer.asCT
                BasicServer.asRT "/collection"
                {| status := 200;
                   json := Resolved (BasicServer.JResource Basic.item1) |})
      as (_ & Hcreate & _).
    apply (Hcreate true eq_refl). discriminate.
Defined.

Lemma default_client_resolves_iff_witness :
  settled (DefaultRestClient_view
             (BasicServer.answering 200 (BasicServer.JResource Basic.item1))
             BasicServer.asRT "/collection" "1")
  = Resolved Basic.item1.
Proof.
  destruct (default_client_resolves_iff
              (CT := list Basic.item) (LP := nat) (CP := bool) (UP := bool)
              (PUP := option bool)
              (BasicServer.answering 200
                 (BasicServer.JResource Basic.item1))
              BasicServer.URLSearchParams_toString BasicServer.asCT
              BasicServer.asRT "/collection")
    as (_ & _ & Hview & _).
  apply (proj2 (Hview "1" Basic.item1)).
  exists {| status := 200;
            json := Resolved (BasicServer.JResource Basic.item1) |},
         (BasicServer.JResource Basic.item1).
  repeat split.
Defined.

Lemma default_client_remove_ignores_body_witness :
  settled (DefaultRestClient_remove (BasicServer.answering_garbage 200)
             "/collection" "1")
  = Resolved tt.
Proof.
  apply (proj2 (default_client_remove_ignores_body
                   (BasicServer.answering_garbage 200) "/collection" "1")).
  exists {| status := 200; json := Rejected (Error "Unexpected token") |}.
  split; reflexivity.
Defined.

Lemma default_client_propagates_rejections_witness :
  settled (DefaultRestClient_view BasicServer.offline BasicServer.asRT
             "/collection" "1")
  = Rejected (Error "Failed to fetch")
  /\ settled (DefaultRestClient_view (BasicServer.answering_garbage 200)
                BasicServer.asRT "/collection" "1")
     = Rejected (Error "Unexpected token").
Proof.
  split.
  - destruct (default_client_propagates_rejections
                (CT := list Basic.item) (LP := nat) (CP := bool) (UP := bool)
                (PUP := option bool)
                BasicServer.offline BasicServer.URLSearchParams_toString
                BasicServer.asCT BasicServer.asRT "/collection"
                (Error "Failed to fetch"))
      as ((_ & _ & Hview & _) & _).
    exact (Hview "1" eq_refl).
  - destruct (default_client_propagates_rejections
                (CT := list Basic.item) (LP := nat) (CP := bool) (UP := bool)
                (PUP := option bool)
                (BasicServer.answering_garbage 200)
                BasicServer.URLSearchParams_toString
                BasicServer.asCT BasicServer.asRT "/collection"
                (Error "Unexpected token"))
      as (_ & Hjson).
    destruct (Hjson {| status := 200;
                       json := Rejected (Error "Unexpected token") |}
                eq_refl) as (_ & _ & Hview & _).
    exact (Hview "1" eq_refl eq_refl).
Defined.

Lemma default_stack_remove_witness :
  "1" <> ""
  /\ cache (snd (resource_remove
                   (resource_api_of
                      (snd (BasicServer.hooks
                              (BasicServer.answering_garbage 200))
                         (Some "1")))
                   Basic.world1))
       !! resourceKey Basic.adapter (inr "1") = Some Null
  /\ cache (snd (resource_remove
                   (resource_api_of
                      (snd (BasicServer.hooks
                              (BasicServer.answering_garbage 204))
                         (Some "1")))
                   Basic.world1))
     = cache Basic.world1.
Proof.
  assert (Hs : "1" <> "") by discriminate.
  split; [exact Hs |]. split.
  - destruct (default_stack_remove
                (BasicServer.answering_garbage 200)
                BasicServer.URLSearchParams_toString BasicServer.asCT
                BasicServer.asRT "/collection" Basic.adapter "1"
                {| status := 200; json := Rejected (Error "Unexpected token") |}
                Basic.world1 Hs eq_refl) as [Hok _].
    exact (proj2 (Hok eq_refl)).
  - destruct (default_stack_remove
                (BasicServer.answering_garbage 204)
                BasicServer.URLSearchParams_toString BasicServer.asCT
                BasicServer.asRT "/collection" Basic.adapter "1"
                {| status := 204; json := Rejected (Error "Unexpected token") |}
                Basic.world1 Hs eq_refl) as [_ Hko].
    assert (Hst : 204 <> 200) by discriminate.
    exact (proj1 (proj2 (Hko Hst))).
Defined.

Lemma default_stack_create_witness :
  fst (collection_create
         (collection_api_of
            (fst (BasicServer.hooks
                    (BasicServer.answering 200
                       (BasicServer.JResource Basic.item1')))
               None))
         false Basic.world1)
  = Rejected (Error "")
  /\ cache (snd (collection_create
                   (collection_api_of
                      (fst (BasicServer.hooks
                              (BasicServer.answering 201
                                 (BasicServer.JResource Basic.item1')))
                         None))
                   false Basic.world1))
       !! resourceKey Basic.adapter (inl Basic.item1')
     = Some (Res Basic.item1').
Proof.
  split.
  - destruct (default_stack_create
                (BasicServer.answering 200
                   (BasicServer.JResource Basic.item1'))
                BasicServer.URLSearchParams_toString BasicServer.asCT
                BasicServer.asRT "/collection" Basic.adapter false
                {| status := 200;
                   json := Resolved (BasicServer.JResource Basic.item1') |}
                None Basic.world1 eq_refl) as [_ Hko].
    assert (Hst : 200 <> 201) by discriminate.
    exact (proj1 (Hko Hst)).
  - destruct (default_stack_create
                (BasicServer.answering 201
                   (BasicServer.JResource Basic.item1'))
                BasicServer.URLSearchParams_toString BasicServer.asCT
                BasicServer.asRT "/collection" Basic.adapter false
                {| status := 201;
                   json := Resolved (BasicServer.JResource Basic.item1') |}
                None Basic.world1 eq_refl) as [Hok _].
    exact (proj2 (Hok (BasicServer.JResource Basic.item1') eq_refl eq_refl)).
Defined.

(** The hypothesis of distinct ids is needed for [remove] to keep the count
    of the paged adapter: two items with the id are dropped, and the count
    goes down by one. *)
Example paged_count_needs_distinct_ids :
  Paged.items (remove Paged.adapter "1"
                 {| Paged.items := [Basic.item1; Basic.item1'];
                    Paged.page := 1; Paged.count := 2 |}) = []
  /\ Paged.count (remove Paged.adapter "1"
                    {| Paged.items := [Basic.item1; Basic.item1'];
                       Paged.page := 1; Paged.count := 2 |}) = 1%Z.
Proof. split; reflexivity. Qed.
